(** * Serial transport over an RFCOMM socket (qtserialbluetooth.cpp)

    A shallow embedding of the custom serial operations that Subsurface
    hands to libdivecomputer: [qt_serial_open], [qt_serial_close],
    [qt_serial_read], [qt_serial_write], [qt_serial_flush] and the wrapper
    [dc_serial_qt_open], together with the properties of them that the
    design document states.

    Conventions of the embedding:
    - C [int] results are integers ([Z]); conversions between [unsigned int],
      [int] and [qint64] are written out ([to_uint], [to_int]);
    - pointers are addresses ([N], [NULL] is 0) into a heap of objects; an
      object that was freed or deleted stays in the heap, marked dead, with
      the contents it had, and every later access to it is recorded as a
      fault;
    - the radio stack is an environment: what the socket looks like after
      each wait of the event loop, and what each transfer call yields;
    - every call on the socket, the timer and the event loop is logged in
      program order. *)

From stdpp Require Import gmap strings list.
From Stdlib Require Import ZArith Lia Ascii String.

Local Open Scope Z_scope.

(** ** Machine integers *)

(** Conversion of an integer value to [unsigned int] (32 bits). *)
Definition to_uint (z : Z) : Z := z mod 2 ^ 32.

(** Conversion of an integer value to [int] (32 bits, two's complement). *)
Definition to_int (z : Z) : Z := (z + 2 ^ 31) mod 2 ^ 32 - 2 ^ 31.

Definition INT_MAX : Z := 2 ^ 31 - 1.
Definition UINT_MAX : Z := 2 ^ 32 - 1.

(** ** Enumerations used by the source *)

(** [dc_status_t], the portable status codes of libdivecomputer. *)
Inductive dc_status_t :=
| DC_STATUS_SUCCESS
| DC_STATUS_UNSUPPORTED
| DC_STATUS_INVALIDARGS
| DC_STATUS_NOMEMORY
| DC_STATUS_NODEVICE
| DC_STATUS_NOACCESS
| DC_STATUS_IO
| DC_STATUS_TIMEOUT
| DC_STATUS_PROTOCOL
| DC_STATUS_DATAFORMAT
| DC_STATUS_CANCELLED.

(** The enumerator values, as libdivecomputer's [common.h] declares them
    (the header is included by the source, it is not part of it). *)
Definition dc_status_value (s : dc_status_t) : Z :=
  match s with
  | DC_STATUS_SUCCESS => 0
  | DC_STATUS_UNSUPPORTED => -1
  | DC_STATUS_INVALIDARGS => -2
  | DC_STATUS_NOMEMORY => -3
  | DC_STATUS_NODEVICE => -4
  | DC_STATUS_NOACCESS => -5
  | DC_STATUS_IO => -6
  | DC_STATUS_TIMEOUT => -7
  | DC_STATUS_PROTOCOL => -8
  | DC_STATUS_DATAFORMAT => -9
  | DC_STATUS_CANCELLED => -10
  end.

Coercion dc_status_value : dc_status_t >-> Z.

(** [QBluetoothSocket::SocketState]. *)
Inductive SocketState :=
| UnconnectedState
| ServiceLookupState
| ConnectingState
| ConnectedState
| BoundState
| ClosingState
| ListeningState.

(** [QBluetoothSocket::SocketError] (Qt 5). *)
Inductive SocketError :=
| NoSocketError
| UnknownSocketError
| RemoteHostClosedError
| HostNotFoundError
| ServiceNotFoundError
| NetworkError
| UnsupportedProtocolError
| OperationError.

(** The enumerator values, as Qt 5 declares them in [qbluetoothsocket.h]
    (most of them are taken over from [QAbstractSocket]). *)
Definition SocketError_value (e : SocketError) : Z :=
  match e with
  | NoSocketError => -2
  | UnknownSocketError => -1
  | RemoteHostClosedError => 1
  | HostNotFoundError => 2
  | ServiceNotFoundError => 9
  | NetworkError => 7
  | UnsupportedProtocolError => 8
  | OperationError => 19
  end.

(** [dc_transport_t]; the source only names [DC_TRANSPORT_BLUETOOTH]. *)
Inductive dc_transport_t :=
| DC_TRANSPORT_NONE
| DC_TRANSPORT_SERIAL
| DC_TRANSPORT_USB
| DC_TRANSPORT_IRDA
| DC_TRANSPORT_BLUETOOTH.

(** The conditions [errno] can be left in by a transfer call.  The loops
    only ask whether it is [EINTR] or [EAGAIN]. *)
Inductive errno_t :=
| ENONE
| EINTR
| EAGAIN
| EIO
| EPIPE
| ECONNRESET
| ENOTCONN
| ETIMEDOUT.

Definition is_transient (e : errno_t) : bool :=
  match e with
  | EINTR | EAGAIN => true
  | _ => false
  end.

#[global] Instance SocketState_eq_dec : EqDecision SocketState.
Proof. solve_decision. Defined.
#[global] Instance SocketError_eq_dec : EqDecision SocketError.
Proof. solve_decision. Defined.
#[global] Instance dc_status_eq_dec : EqDecision dc_status_t.
Proof. solve_decision. Defined.

(** ** Objects, heap and world *)

Abbreviation ptr := N (only parsing).
Definition NULL : ptr := 0%N.

(** [struct serial_t]. *)
Record serial_t := mk_serial_t {
  context : ptr;      (* dc_context_t *context, opaque here *)
  socket : ptr;       (* QBluetoothSocket *socket *)
  timeout : Z         (* long timeout *)
}.

(** The part of a [QBluetoothSocket] the source queries. *)
Record QBluetoothSocket := mk_socket {
  state : SocketState;
  error : SocketError;
  socketDescriptor : Z
}.

(** [dc_serial_t] of libdivecomputer's custom-serial interface: the port,
    the transport type, the user data and whether the operation table is
    set to [qt_serial_ops]. *)
Record dc_serial_t := mk_dc_serial_t {
  port : ptr;
  type : dc_transport_t;
  data : ptr;
  ops : bool
}.

Inductive object :=
| Serial (s : serial_t)
| Socket (q : QBluetoothSocket)
| DcSerial (d : dc_serial_t)
| Pointer (p : ptr).

(** A heap cell: the object and whether its storage is still allocated. *)
Record cell := mk_cell { obj : object; live : bool }.

(** Where a pointer can be stored through an out parameter: nowhere
    ([NULL]), in a pointer variable of the caller, or in the [port] field
    of a [dc_serial_t] (the expression [&serial_device->port]). *)
Inductive loc :=
| NullLoc
| CellLoc (a : ptr)
| PortLoc (a : ptr).

#[global] Instance loc_eq_dec : EqDecision loc.
Proof. solve_decision. Defined.

Inductive fault :=
| UseAfterFree (a : ptr)    (* access to an object whose storage was released *)
| DoubleFree (a : ptr).     (* release of storage that was already released *)

(** Calls on the socket, the timer and the event loops. *)
Inductive call :=
| ConnectToService (s : ptr) (address : string) (channel : Z)
| TimerStart (msec : Z)
| LoopExec
| SocketClose (s : ptr)
| WaitForReadyRead (s : ptr) (msecs : Z)
| SocketRead (s : ptr) (offset maxlen : Z)
| AwaitReadyRead (s : ptr)
| WaitForBytesWritten (s : ptr) (msecs : Z)
| SocketWrite (s : ptr) (offset maxlen : Z).

Record world := mk_world {
  heap : gmap N cell;
  faults : list fault;      (* in the order they happened *)
  calls : list call;        (* in program order *)
  allocs : list bool        (* outcome of the next calls of malloc; when
                               the list is used up malloc succeeds *)
}.

Definition set_heap (h : gmap N cell) (w : world) : world :=
  mk_world h (faults w) (calls w) (allocs w).

Definition add_fault (f : fault) (w : world) : world :=
  mk_world (heap w) (faults w ++ [f]) (calls w) (allocs w).

Definition add_call (c : call) (w : world) : world :=
  mk_world (heap w) (faults w) (calls w ++ [c]) (allocs w).

(** ** Computations *)

(** A call returns a value in a new world, gets stuck on a pointer that
    refers to no object of the expected type, or is still pending when the
    scripted environment ends (it blocks, or loops, beyond it). *)
Inductive result (A : Type) :=
| Ret (a : A) (w : world)
| Stuck (w : world)
| Pending (w : world).

Arguments Ret {A} a w.
Arguments Stuck {A} w.
Arguments Pending {A} w.

Definition M (A : Type) := world -> result A.

Definition ret {A} (a : A) : M A := fun w => Ret a w.

Definition bind {A B} (m : M A) (k : A -> M B) : M B :=
  fun w => match m w with
           | Ret a w' => k a w'
           | Stuck w' => Stuck w'
           | Pending w' => Pending w'
           end.

Notation "x <- m ;; k" := (bind m (fun x => k))
  (at level 100, m at next level, right associativity).
Notation "m ;;; k" := (bind m (fun _ => k))
  (at level 100, right associativity).

Definition stuck {A} : M A := fun w => Stuck w.

(** Reading an object through a pointer.  Storage that was released keeps
    its contents: the read yields them and is recorded as a fault.  In the
    source such a read is undefined: the allocator may have overwritten the
    storage, and the program may stop at the read.  What a run does after a
    recorded fault is therefore what the source does where released storage
    still holds its contents, and nothing more. *)
Definition load (a : ptr) : M object :=
  fun w => match heap w !! a with
           | Some c => Ret (obj c) (if live c then w else add_fault (UseAfterFree a) w)
           | None => Stuck w
           end.

Definition load_serial (a : ptr) : M serial_t :=
  o <- load a ;; match o with Serial s => ret s | _ => stuck end.

Definition load_socket (a : ptr) : M QBluetoothSocket :=
  o <- load a ;; match o with Socket q => ret q | _ => stuck end.

Definition load_dc_serial (a : ptr) : M dc_serial_t :=
  o <- load a ;; match o with DcSerial d => ret d | _ => stuck end.

(** Overwriting the object behind a pointer. *)
Definition store (a : ptr) (o : object) : M unit :=
  fun w => match heap w !! a with
           | Some c =>
               let w' := set_heap (<[a := mk_cell o (live c)]> (heap w)) w in
               Ret tt (if live c then w' else add_fault (UseAfterFree a) w')
           | None => Stuck w
           end.

(** [free] and [delete]: the storage is released, the contents stay.
    Releasing storage a second time is recorded as a fault; in the source
    it is undefined (the allocator may abort), so what follows it in a run
    is subject to the same reservation as what follows a read of released
    storage. *)
Definition release (a : ptr) : M unit :=
  fun w => match heap w !! a with
           | Some c =>
               if live c
               then Ret tt (set_heap (<[a := mk_cell (obj c) false]> (heap w)) w)
               else Ret tt (add_fault (DoubleFree a) w)
           | None => Stuck w
           end.

Definition free (a : ptr) : M unit :=
  if decide (a = NULL) then ret tt else release a.

(** An address that is neither [NULL] nor in use.  Released storage is not
    handed out again. *)
Definition fresh_addr (w : world) : ptr := fresh ({[NULL]} ∪ dom (heap w)).

Definition allocate (o : object) : M ptr :=
  fun w => let a := fresh_addr w in
           Ret a (set_heap (<[a := mk_cell o true]> (heap w)) w).

(** [malloc]: returns [NULL] when the environment says the allocation
    fails.  The new storage is indeterminate; the callers assign every
    field before reading it, so [o] stands for that initial content. *)
Definition malloc (o : object) : M ptr :=
  fun w => match allocs w with
           | false :: rest =>
               Ret NULL (mk_world (heap w) (faults w) (calls w) rest)
           | true :: rest =>
               allocate o (mk_world (heap w) (faults w) (calls w) rest)
           | [] => allocate o w
           end.

Definition log (c : call) : M unit := fun w => Ret tt (add_call c w).

(** A method call on a socket object: the object must exist; calling it
    after [delete] is recorded as a fault. *)
Definition on_socket (s : ptr) (c : call) : M unit :=
  load_socket s ;;; log c.

(** ** close and flush *)

(** [qt_serial_close] (source lines 112-123). *)
Definition qt_serial_close (device : ptr) : M Z :=
  if decide (device = NULL) then ret (DC_STATUS_SUCCESS : Z) else
  d <- load_serial device ;;
  if decide (socket d = NULL) then ret (DC_STATUS_SUCCESS : Z) else
  on_socket (socket d) (SocketClose (socket d)) ;;;
  release (socket d) ;;;
  free device ;;;
  ret (DC_STATUS_SUCCESS : Z).

(** [qt_serial_flush] (source lines 186-194). *)
Definition qt_serial_flush (device : ptr) (queue : Z) : M Z :=
  if decide (device = NULL) then ret (DC_STATUS_INVALIDARGS : Z) else
  d <- load_serial device ;;
  if decide (socket d = NULL) then ret (DC_STATUS_INVALIDARGS : Z) else
  ret (DC_STATUS_SUCCESS : Z).

(** ** read and write *)

(** The caller's buffer behind [void *data], and the bytes arriving on the
    link, both indexed by byte offset. *)
Definition buffer := Z -> Byte.byte.

(** What one call of [socket->read] or [socket->write] yields: the value it
    returns (a [qint64]) and the condition it leaves [errno] in. *)
Record transfer := mk_transfer { transferred : Z; errno : errno_t }.

(** [socket->read (data + nbytes, n)] storing [n] bytes: they are the next
    bytes of the stream, from position [pos] on. *)
Definition deliver (rx : buffer) (pos n nbytes : Z) (data : buffer) : buffer :=
  fun i => if (nbytes <=? i) && (i <? nbytes + n) then rx (pos + (i - nbytes)) else data i.

Definition pending {A} : M A := fun w => Pending w.

(** The loop of [qt_serial_read] (source lines 133-152).  [pos] counts the
    bytes taken off the stream so far. *)
Fixpoint read_loop (s : ptr) (msecs size : Z) (rx : buffer) (script : list transfer)
    (nbytes pos : Z) (data : buffer) : M (Z * buffer) :=
  if nbytes <? size then
    match script with
    | [] => pending
    | t :: script' =>
        on_socket s (WaitForReadyRead s msecs) ;;;
        on_socket s (SocketRead s nbytes (to_uint (size - nbytes))) ;;;
        let data' := deliver rx pos (transferred t) nbytes data in
        let pos' := pos + Z.max 0 (transferred t) in
        let rc := to_int (transferred t) in
        if rc <? 0 then
          if is_transient (errno t)
          then read_loop s msecs size rx script' nbytes pos' data'
          else ret (-1, data')
        else
          (if rc =? 0 then on_socket s (AwaitReadyRead s) else ret tt) ;;;
          read_loop s msecs size rx script' (to_uint (nbytes + rc)) pos' data'
    end
  else ret (to_int nbytes, data).

(** [qt_serial_read] (source lines 125-155).  [size] is an [unsigned int];
    [rx] is the stream of bytes the link delivers from now on and [script]
    what the successive calls of [socket->read] yield.  The loop does not
    change the handle, so [device->socket] and [device->timeout] are read
    once, at the guard. *)
Definition qt_serial_read (device : ptr) (data : buffer) (size : Z)
    (rx : buffer) (script : list transfer) : M (Z * buffer) :=
  if decide (device = NULL) then ret (DC_STATUS_INVALIDARGS : Z, data) else
  d <- load_serial device ;;
  if decide (socket d = NULL) then ret (DC_STATUS_INVALIDARGS : Z, data) else
  read_loop (socket d) (to_int (timeout d)) size rx script 0 0 data.

(** The loop of [qt_serial_write] (source lines 165-181). *)
Fixpoint write_loop (s : ptr) (msecs size : Z) (script : list transfer)
    (nbytes : Z) : M Z :=
  if nbytes <? size then
    match script with
    | [] => pending
    | t :: script' =>
        on_socket s (WaitForBytesWritten s msecs) ;;;
        on_socket s (SocketWrite s nbytes (to_uint (size - nbytes))) ;;;
        let rc := to_int (transferred t) in
        if rc <? 0 then
          if is_transient (errno t)
          then write_loop s msecs size script' nbytes
          else ret (-1)
        else if rc =? 0 then ret (to_int nbytes)
        else write_loop s msecs size script' (to_uint (nbytes + rc))
    end
  else ret (to_int nbytes).

(** [qt_serial_write] (source lines 157-184).  The bytes behind [data] are
    only passed on to the socket; which of them are sent is told by the
    offsets of the logged [SocketWrite] calls. *)
Definition qt_serial_write (device : ptr) (data : buffer) (size : Z)
    (script : list transfer) : M Z :=
  if decide (device = NULL) then ret (DC_STATUS_INVALIDARGS : Z) else
  d <- load_serial device ;;
  if decide (socket d = NULL) then ret (DC_STATUS_INVALIDARGS : Z) else
  write_loop (socket d) (to_int (timeout d)) size script 0.

(** The value a call returned, if it returned. *)
Definition returned {A} (r : result A) : option A :=
  match r with Ret a _ => Some a | _ => None end.

(** The world a call ended in. *)
Definition final {A} (r : result A) : world :=
  match r with Ret _ w | Stuck w | Pending w => w end.

(** ** open *)

(** The radio stack as [qt_serial_open] sees it: what the socket looks like
    when a wait of the event loop is over, given every call made so far
    (the last one being that wait).  The loop quits on the socket's
    [connected] or [error] signal or when the timer fires; which of them
    ended the wait shows in the state the socket is left in. *)
Definition transport := list call -> QBluetoothSocket.

(** [serial_port->socket]. *)
Definition socket_of (p : ptr) : M ptr :=
  d <- load_serial p ;; ret (socket d).

Definition set_context (p c : ptr) : M unit :=
  d <- load_serial p ;; store p (Serial (mk_serial_t c (socket d) (timeout d))).

Definition set_timeout (p : ptr) (t : Z) : M unit :=
  d <- load_serial p ;; store p (Serial (mk_serial_t (context d) (socket d) t)).

Definition set_socket (p s : ptr) : M unit :=
  d <- load_serial p ;; store p (Serial (mk_serial_t (context d) s (timeout d))).

(** [*out = p]. *)
Definition store_loc (out : loc) (p : ptr) : M unit :=
  match out with
  | NullLoc => stuck
  | CellLoc a =>
      o <- load a ;;
      match o with Pointer _ => store a (Pointer p) | _ => stuck end
  | PortLoc a =>
      d <- load_dc_serial a ;;
      store a (DcSerial (mk_dc_serial_t p (type d) (data d) (ops d)))
  end.

(** The pointer stored at a location, when there is one. *)
Definition read_loc (out : loc) (w : world) : option ptr :=
  match out with
  | NullLoc => None
  | CellLoc a =>
      match heap w !! a with
      | Some (mk_cell (Pointer p) _) => Some p
      | _ => None
      end
  | PortLoc a =>
      match heap w !! a with
      | Some (mk_cell (DcSerial d) _) => Some (port d)
      | _ => None
      end
  end.

(** [serial_port->socket->connectToService (remoteDeviceAddress, channel)].
    The address object is built from [devaddr] without any check; what a
    string that is no address stands for is left to the transport. *)
Definition connectToService (p : ptr) (devaddr : string) (channel : Z) : M unit :=
  s <- socket_of p ;; on_socket s (ConnectToService s devaddr channel).

(** [serial_port->socket->state ()], [->error ()], [->socketDescriptor ()]. *)
Definition socket_state (p : ptr) : M SocketState :=
  s <- socket_of p ;; q <- load_socket s ;; ret (state q).

Definition socket_error (p : ptr) : M SocketError :=
  s <- socket_of p ;; q <- load_socket s ;; ret (error q).

Definition socket_descriptor (p : ptr) : M Z :=
  s <- socket_of p ;; q <- load_socket s ;; ret (socketDescriptor q).

Section Open.

(** [QT_VERSION], which decides whether the [OperationError] case of the
    switch is compiled. *)
Variable QT_VERSION : Z.

Variable T : transport.

(** [loop.exec ()] on the loop that is connected to the signals of socket
    [s] and to the timer. *)
Definition loop_exec (s : ptr) : M unit :=
  log LoopExec ;;;
  fun w => store s (Socket (T (calls w))) w.

(** The switch of source lines 90-104. *)
Definition connect_error_status (err : SocketError) : Z :=
  match err with
  | HostNotFoundError | ServiceNotFoundError => DC_STATUS_NODEVICE
  | UnsupportedProtocolError => DC_STATUS_PROTOCOL
  | OperationError =>
      if 0x050400 <=? QT_VERSION then DC_STATUS_UNSUPPORTED
      else SocketError_value UnknownSocketError
  | NetworkError => DC_STATUS_IO
  | _ => SocketError_value UnknownSocketError
  end.

(** [qt_serial_open] (source lines 26-110). *)
Definition qt_serial_open (out : loc) (context : ptr) (devaddr : string) : M Z :=
  if decide (out = NullLoc) then ret (DC_STATUS_INVALIDARGS : Z) else
  serial_port <- malloc (Serial (mk_serial_t NULL NULL 0)) ;;
  if decide (serial_port = NULL) then ret (DC_STATUS_NOMEMORY : Z) else
  set_context serial_port context ;;;
  set_timeout serial_port (-1) ;;;
  s <- allocate (Socket (mk_socket UnconnectedState NoSocketError (-1))) ;;
  set_socket serial_port s ;;;
  let msec := 5000 in
  connectToService serial_port devaddr 1 ;;;
  log (TimerStart msec) ;;;
  loop_exec s ;;;
  st <- socket_state serial_port ;;
  (if decide (st = ConnectingState) then
     log (TimerStart (3 * msec)) ;;;
     loop_exec s
   else
     st <- socket_state serial_port ;;
     if decide (st = UnconnectedState) then
       connectToService serial_port devaddr 5 ;;;
       log (TimerStart msec) ;;;
       loop_exec s ;;;
       st <- socket_state serial_port ;;
       if decide (st = ConnectingState) then
         log (TimerStart (3 * msec)) ;;;
         loop_exec s
       else ret tt
     else ret tt) ;;;
  fd <- socket_descriptor serial_port ;;
  failed <- (if decide (fd = -1) then ret true
             else st <- socket_state serial_port ;;
                  ret (bool_decide (st ≠ ConnectedState))) ;;
  if (failed : bool) then
    free serial_port ;;;
    err <- socket_error serial_port ;;
    socket_state serial_port ;;;
    ret (connect_error_status err)
  else
    store_loc out serial_port ;;;
    ret (DC_STATUS_SUCCESS : Z).

(** What [dc_serial_init], which libdivecomputer defines, leaves in the
    structure it is given, for the user data it is passed (the operation
    table is always [qt_serial_ops] here). *)
Variable dc_serial_init : ptr -> dc_serial_t.

Definition set_type (p : ptr) (t : dc_transport_t) : M unit :=
  d <- load_dc_serial p ;;
  store p (DcSerial (mk_dc_serial_t (port d) t (data d) (ops d))).

(** [dc_serial_qt_open] (source lines 225-253). *)
Definition dc_serial_qt_open (out : loc) (context : ptr) (devaddr : string) : M Z :=
  if decide (out = NullLoc) then ret (DC_STATUS_INVALIDARGS : Z) else
  serial_device <- malloc (DcSerial (mk_dc_serial_t NULL DC_TRANSPORT_NONE NULL false)) ;;
  if decide (serial_device = NULL) then ret (DC_STATUS_NOMEMORY : Z) else
  store serial_device (DcSerial (dc_serial_init NULL)) ;;;
  rc <- qt_serial_open (PortLoc serial_device) context devaddr ;;
  if decide (rc ≠ (DC_STATUS_SUCCESS : Z)) then
    free serial_device ;;;
    ret rc
  else
    set_type serial_device DC_TRANSPORT_BLUETOOTH ;;;
    store_loc out serial_device ;;;
    ret (DC_STATUS_SUCCESS : Z).

End Open.

(** ** Pending byte counts *)

(** [qt_serial_get_received] (source lines 196-202).  [bytesAvailable] is
    what [device->socket->bytesAvailable ()] yields, a [qint64]; the
    function returns it as an [int]. *)
Definition qt_serial_get_received (device : ptr) (bytesAvailable : Z) : M Z :=
  if decide (device = NULL) then ret (DC_STATUS_INVALIDARGS : Z) else
  d <- load_serial device ;;
  if decide (socket d = NULL) then ret (DC_STATUS_INVALIDARGS : Z) else
  load_socket (socket d) ;;;
  ret (to_int bytesAvailable).

(** [qt_serial_get_transmitted] (source lines 204-210), with what
    [device->socket->bytesToWrite ()] yields. *)
Definition qt_serial_get_transmitted (device : ptr) (bytesToWrite : Z) : M Z :=
  if decide (device = NULL) then ret (DC_STATUS_INVALIDARGS : Z) else
  d <- load_serial device ;;
  if decide (socket d = NULL) then ret (DC_STATUS_INVALIDARGS : Z) else
  load_socket (socket d) ;;;
  ret (to_int bytesToWrite).

(** * Vocabulary of the statements *)

(** ** Worlds *)

(** The world after some more calls were logged. *)
Definition add_calls (l : list call) (w : world) : world :=
  mk_world (heap w) (faults w) (calls w ++ l) (allocs w).

(** A world with one open handle: the [serial_t] at address 1, its socket
    at address 2, and a pointer variable of the caller at address 3. *)
Definition one_handle (q : QBluetoothSocket) : world :=
  mk_world
    (<[1%N := mk_cell (Serial (mk_serial_t NULL 2%N (-1))) true]>
       (<[2%N := mk_cell (Socket q) true]>
          (<[3%N := mk_cell (Pointer NULL) true]> ∅)))
    [] [] [].

(** A socket with an established connection, and one that was never
    connected. *)
Definition connected_socket : QBluetoothSocket :=
  mk_socket ConnectedState NoSocketError 7.

Definition idle_socket : QBluetoothSocket :=
  mk_socket UnconnectedState NoSocketError (-1).

(** The world after a live handle was closed: socket and handle released,
    the shutdown request logged, nothing else touched. *)
Definition closed (device : ptr) (d : serial_t) (q : QBluetoothSocket) (w : world) : world :=
  mk_world
    (<[device := mk_cell (Serial d) false]>
       (<[socket d := mk_cell (Socket q) false]> (heap w)))
    (faults w)
    (calls w ++ [SocketClose (socket d)])
    (allocs w).

(** ** Outcomes of transfer calls *)

(** The least [int]. *)
Definition INT_MIN : Z := - 2 ^ 31.

(** How the loops take the outcome of a transfer call.  [retried]: it
    failed and [errno] says interrupted or would block.  [is_hard]: it
    failed for another reason.  [delivers]: it moved some bytes, possibly
    none. *)
Definition retried (t : transfer) : bool :=
  (INT_MIN <=? transferred t) && (transferred t <? 0) && is_transient (errno t).

Definition is_hard (t : transfer) : bool :=
  (to_int (transferred t) <? 0) && negb (is_transient (errno t)).

Definition delivers (t : transfer) : bool :=
  (0 <=? transferred t) && (transferred t <=? INT_MAX).

(** Outcomes after which [qt_serial_read], respectively [qt_serial_write],
    goes round its loop again (as long as bytes are missing). *)
Definition read_goes_on (t : transfer) : bool := retried t || delivers t.

Definition write_goes_on (t : transfer) : bool :=
  retried t || (delivers t && (0 <? transferred t)).

(** Bytes moved by a transfer call, and by a sequence of them. *)
Definition gained (t : transfer) : Z := Z.max 0 (transferred t).

Fixpoint total (l : list transfer) : Z :=
  match l with
  | [] => 0
  | t :: l' => gained t + total l'
  end.

(** The calls [qt_serial_read] is expected to make for a sequence of
    outcomes, starting with [nbytes] bytes in the buffer: per outcome a
    bounded wait for readability and a read into the rest of the buffer,
    and after a read of no bytes a wait for the arrival of data. *)
Fixpoint read_trace (s : ptr) (msecs size nbytes : Z) (l : list transfer) : list call :=
  match l with
  | [] => []
  | t :: l' =>
      [WaitForReadyRead s msecs; SocketRead s nbytes (size - nbytes)]
      ++ (if transferred t =? 0 then [AwaitReadyRead s] else [])
      ++ read_trace s msecs size (nbytes + gained t) l'
  end.

(** The same for [qt_serial_write]: per outcome a bounded wait for the
    bytes written and a write of the rest of the buffer. *)
Fixpoint write_trace (s : ptr) (msecs size nbytes : Z) (l : list transfer) : list call :=
  match l with
  | [] => []
  | t :: l' =>
      [WaitForBytesWritten s msecs; SocketWrite s nbytes (size - nbytes)]
      ++ write_trace s msecs size (nbytes + gained t) l'
  end.

(** The buffer after a sequence of outcomes of [socket->read]. *)
Fixpoint fill (rx : buffer) (l : list transfer) (nbytes pos : Z) (data : buffer) : buffer :=
  match l with
  | [] => data
  | t :: l' =>
      fill rx l' (nbytes + gained t) (pos + gained t)
        (deliver rx pos (transferred t) nbytes data)
  end.

(** A stream that counts: byte [i] of it is [i] (modulo 256). *)
Definition counting : buffer :=
  fun i => match Byte.of_N (Z.to_N (i mod 256)) with Some b => b | None => Byte.x00 end.

(** A buffer filled with the byte 255. *)
Definition blank : buffer := fun _ => Byte.xff.

(** ** A call of open *)

(** Whether the next call of [malloc] succeeds. *)
Definition malloc_ok (w : world) : bool :=
  match allocs w with
  | false :: _ => false
  | _ => true
  end.

(** The address of the socket that [qt_serial_open] creates: the first
    fresh address after that of the handle. *)
Definition second_addr (w : world) : ptr :=
  fresh ({[NULL]} ∪ ({[fresh_addr w]} ∪ dom (heap w))).

(** The world while [qt_serial_open] is connecting: on top of the heap [h]
    it was called in, the handle at [sp] (allocated or, once the attempt
    was given up, freed) and its socket at [s]. *)
Definition open_world (alive : bool) (h : gmap N cell) (fs : list fault) (al : list bool)
    (sp s context : ptr) (q : QBluetoothSocket) (cs : list call) : world :=
  mk_world
    (<[s := mk_cell (Socket q) true]>
       (<[sp := mk_cell (Serial (mk_serial_t context s (-1))) alive]> h))
    fs cs al.

(** The calls [qt_serial_open] makes while connecting, after the calls
    [cs] made before: channel 1 with the short wait; the long wait if the
    socket is then still connecting; channel 5 with the short wait if it
    is unconnected, and the long wait if it is then still connecting. *)
Definition connect_log (T : transport) (s : ptr) (devaddr : string) (cs : list call) :
    list call :=
  let cs1 := cs ++ [ConnectToService s devaddr 1; TimerStart 5000; LoopExec] in
  if decide (state (T cs1) = ConnectingState) then
    cs1 ++ [TimerStart 15000; LoopExec]
  else if decide (state (T cs1) = UnconnectedState) then
    let cs2 := cs1 ++ [ConnectToService s devaddr 5; TimerStart 5000; LoopExec] in
    if decide (state (T cs2) = ConnectingState) then
      cs2 ++ [TimerStart 15000; LoopExec]
    else cs2
  else cs1.

(** Whether the socket counts as connected for [qt_serial_open]
    (source line 83). *)
Definition connect_failed (q : QBluetoothSocket) : bool :=
  bool_decide (socketDescriptor q = -1 \/ state q <> ConnectedState).

(** ** Transports *)

(** A transport on which nothing ever answers: the socket stays in the
    connecting state and reports no error. *)
Definition silent : transport :=
  fun _ => mk_socket ConnectingState NoSocketError (-1).

(** A transport that fails every attempt with the given error. *)
Definition refusing (err : SocketError) : transport :=
  fun _ => mk_socket UnconnectedState err (-1).

(** Whether a call is a connection attempt on the given channel. *)
Definition is_connect_on (channel : Z) (c : call) : bool :=
  match c with
  | ConnectToService _ _ ch => ch =? channel
  | _ => false
  end.

(** A device that refuses channel 1 at once and accepts channel 5. *)
Definition accepts_channel_5 : transport :=
  fun cs => if existsb (is_connect_on 5) cs
            then mk_socket ConnectedState NoSocketError 9
            else mk_socket UnconnectedState ServiceNotFoundError (-1).

(** What [dc_serial_init] of libdivecomputer leaves: a cleared structure
    with the user data and the operation table set. *)
Definition cleared_with_ops (data : ptr) : dc_serial_t :=
  mk_dc_serial_t NULL DC_TRANSPORT_NONE data true.

(** ** Device addresses *)

(** A hexadecimal digit, in either case. *)
Definition is_hex_digit (c : ascii) : bool :=
  let n := N_of_ascii c in
  ((48 <=? n) && (n <=? 57) || (65 <=? n) && (n <=? 70)
   || (97 <=? n) && (n <=? 102))%N.

(** [n] groups of two hexadecimal digits, separated by colons. *)
Fixpoint hex_groups (n : nat) (cs : list ascii) : bool :=
  match n, cs with
  | 1%nat, [a; b] => is_hex_digit a && is_hex_digit b
  | S n', a :: b :: ":"%char :: rest =>
      is_hex_digit a && is_hex_digit b && hex_groups n' rest
  | _, _ => false
  end.

(** Modelled from the spec: a device address is well formed when it is a
    non-empty radio MAC-style address in source form, that is six groups of
    two hexadecimal digits separated by colons.  (The source has no such
    check; the predicate only says which addresses the design document
    calls malformed.) *)
Definition well_formed_address (devaddr : string) : bool :=
  hex_groups 6 (list_ascii_of_string devaddr).

(** ** Reading a log of calls *)

(** The time the timers of a log were started for, in milliseconds. *)
Fixpoint waited (cs : list call) : Z :=
  match cs with
  | [] => 0
  | TimerStart msec :: cs' => msec + waited cs'
  | _ :: cs' => waited cs'
  end.

(** The channels of the connection attempts of a log, in order. *)
Fixpoint channels (cs : list call) : list Z :=
  match cs with
  | [] => []
  | ConnectToService _ _ channel :: cs' => channel :: channels cs'
  | _ :: cs' => channels cs'
  end.

(** The world after a successful [qt_serial_open] that was given the
    pointer variable at [a] as out parameter: the world of the connected
    call, with the handle stored in the variable. *)
Definition opened (a : ptr) (h : gmap N cell) (fs : list fault) (al : list bool)
    (sp s context : ptr) (q : QBluetoothSocket) (cs : list call) : world :=
  mk_world
    (<[a := mk_cell (Pointer sp) true]>
       (heap (open_world true h fs al sp s context q cs)))
    fs cs al.

(** The world in which [dc_serial_qt_open] calls [qt_serial_open]: the
    structure it allocated is initialised. *)
Definition wrapped (init : dc_serial_t) (w : world) : world :=
  mk_world (<[fresh_addr w := mk_cell (DcSerial init) true]> (heap w))
    (faults w) (calls w) (tail (allocs w)).

(** A device that is still connecting on channel 1 when the first 5000 ms
    are over, rejects the attempt during the 15000 ms that follow, and
    would accept an attempt on channel 5. *)
Definition rejects_late : transport :=
  fun cs => if existsb (is_connect_on 5) cs
            then mk_socket ConnectedState NoSocketError 9
            else if waited cs <? 20000
                 then mk_socket ConnectingState NoSocketError (-1)
                 else mk_socket UnconnectedState ServiceNotFoundError (-1).

(** * Properties *)

(** ** Machine integers *)

Lemma to_int_id z : - 2 ^ 31 <= z <= INT_MAX -> to_int z = z.
Proof.
  unfold to_int, INT_MAX. intros H.
  rewrite Z.mod_small; lia.
Qed.

Lemma to_uint_id z : 0 <= z <= UINT_MAX -> to_uint z = z.
Proof.
  unfold to_uint, UINT_MAX. intros H.
  apply Z.mod_small. lia.
Qed.

(** ** Steps on the heap *)

Lemma add_calls_nil w : add_calls [] w = w.
Proof. destruct w. unfold add_calls. simpl. by rewrite app_nil_r. Qed.

Lemma add_calls_app l1 l2 w : add_calls l2 (add_calls l1 w) = add_calls (l1 ++ l2) w.
Proof. unfold add_calls. simpl. by rewrite app_assoc. Qed.

Lemma add_call_calls c w : add_call c w = add_calls [c] w.
Proof. reflexivity. Qed.

Lemma load_live a o w :
  heap w !! a = Some (mk_cell o true) -> load a w = Ret o w.
Proof. unfold load. by intros ->. Qed.

Lemma load_dead a o w :
  heap w !! a = Some (mk_cell o false) ->
  load a w = Ret o (add_fault (UseAfterFree a) w).
Proof. unfold load. by intros ->. Qed.

Lemma load_serial_live a d w :
  heap w !! a = Some (mk_cell (Serial d) true) -> load_serial a w = Ret d w.
Proof. intros H. unfold load_serial, bind. by rewrite (load_live _ _ _ H). Qed.

Lemma load_socket_live a q w :
  heap w !! a = Some (mk_cell (Socket q) true) -> load_socket a w = Ret q w.
Proof. intros H. unfold load_socket, bind. by rewrite (load_live _ _ _ H). Qed.

Lemma on_socket_live s q c w :
  heap w !! s = Some (mk_cell (Socket q) true) ->
  on_socket s c w = Ret tt (add_calls [c] w).
Proof.
  intros H. unfold on_socket, bind. by rewrite (load_socket_live _ _ _ H).
Qed.

(** ** flush *)

(** C3, as amended: [qt_serial_flush] never changes anything, whatever the
    queue selector; it reports success for a handle that is not null and
    holds a socket pointer (connected or not), and it reports
    [DC_STATUS_INVALIDARGS] for a null handle and for a handle whose socket
    pointer is null. *)
Theorem qt_serial_flush_guarded_noop (device : ptr) (d : serial_t) (queue : Z) (w : world) :
  device = NULL \/ heap w !! device = Some (mk_cell (Serial d) true) ->
  qt_serial_flush device queue w =
    Ret (if bool_decide (device = NULL \/ socket d = NULL)
         then (DC_STATUS_INVALIDARGS : Z) else (DC_STATUS_SUCCESS : Z)) w.
Proof.
  intros Hd. unfold qt_serial_flush.
  destruct (decide (device = NULL)) as [Hnull | Hnn].
  - rewrite bool_decide_eq_true_2; [reflexivity | by left].
  - destruct Hd as [? | Hd]; [done |].
    unfold bind. rewrite (load_serial_live _ _ _ Hd).
    destruct (decide (socket d = NULL)) as [Hs | Hs].
    + rewrite bool_decide_eq_true_2; [reflexivity | by right].
    + rewrite bool_decide_eq_false_2; [reflexivity | tauto].
Qed.

Lemma qt_serial_flush_guarded_noop_witness :
  heap (one_handle idle_socket) !! 1%N
    = Some (mk_cell (Serial (mk_serial_t NULL 2%N (-1))) true) /\
  qt_serial_flush 1%N 3 (one_handle idle_socket)
    = Ret (DC_STATUS_SUCCESS : Z) (one_handle idle_socket).
Proof.
  split; [reflexivity |].
  apply (qt_serial_flush_guarded_noop 1%N (mk_serial_t NULL 2%N (-1)) 3
           (one_handle idle_socket)).
  right. reflexivity.
Defined.

(** C3 as stated fails: for the null handle flush reports
    [DC_STATUS_INVALIDARGS], not success. *)
Lemma qt_serial_flush_null_not_success :
  returned (qt_serial_flush NULL 0 (one_handle connected_socket))
    = Some (DC_STATUS_INVALIDARGS : Z) /\
  returned (qt_serial_flush NULL 0 (one_handle connected_socket))
    <> Some (DC_STATUS_SUCCESS : Z).
Proof. split; [reflexivity | discriminate]. Qed.

(** ** close *)

Lemma release_live a o w :
  heap w !! a = Some (mk_cell o true) ->
  release a w = Ret tt (set_heap (<[a := mk_cell o false]> (heap w)) w).
Proof. unfold release. by intros ->. Qed.

Lemma release_dead a o w :
  heap w !! a = Some (mk_cell o false) ->
  release a w = Ret tt (add_fault (DoubleFree a) w).
Proof. unfold release. by intros ->. Qed.

(** Closing a live handle: the socket is asked to shut down and is deleted,
    the handle is freed, and the call reports success. *)
Lemma qt_serial_close_live device d q w :
  device <> NULL ->
  heap w !! device = Some (mk_cell (Serial d) true) ->
  socket d <> NULL ->
  heap w !! socket d = Some (mk_cell (Socket q) true) ->
  qt_serial_close device w = Ret (DC_STATUS_SUCCESS : Z) (closed device d q w).
Proof.
  intros Hnn Hd Hsn Hs.
  assert (Hne : socket d <> device) by (intros E; rewrite E in Hs; congruence).
  unfold qt_serial_close.
  rewrite decide_False by done.
  unfold bind at 1. rewrite (load_serial_live _ _ _ Hd).
  rewrite decide_False by done.
  unfold bind at 1. rewrite (on_socket_live _ _ _ _ Hs).
  unfold bind at 1. rewrite (release_live _ (Socket q)) by exact Hs.
  unfold bind at 1. unfold free. rewrite decide_False by done.
  rewrite (release_live _ (Serial d)).
  2:{ simpl. by rewrite lookup_insert_ne. }
  reflexivity.
Qed.

(** Whatever it is given, [qt_serial_close] has no other status to return
    than success. *)
Lemma qt_serial_close_only_success device w rc w' :
  qt_serial_close device w = Ret rc w' -> rc = DC_STATUS_SUCCESS.
Proof.
  unfold qt_serial_close, on_socket, load_serial, load_socket, free, bind, ret, stuck.
  intros H. repeat case_match; simplify_eq; reflexivity.
Qed.

(** C8, as amended: [qt_serial_close] reports success and records no
    memory fault for a null handle, for a handle whose socket pointer is
    null (both are left as they are) and for a live handle (its socket is
    shut down and deleted and the handle freed).  A handle that was closed
    before is none of these: the pointer dangles. *)
Theorem qt_serial_close_succeeds (device : ptr) (d : serial_t) (q : QBluetoothSocket) (w : world) :
  device = NULL \/
  (heap w !! device = Some (mk_cell (Serial d) true) /\
   (socket d = NULL \/ heap w !! socket d = Some (mk_cell (Socket q) true))) ->
  qt_serial_close device w =
    Ret (DC_STATUS_SUCCESS : Z)
        (if bool_decide (device = NULL \/ socket d = NULL) then w
         else closed device d q w).
Proof.
  intros H.
  destruct (decide (device = NULL)) as [Hnull | Hnn].
  { rewrite bool_decide_eq_true_2 by (by left).
    unfold qt_serial_close. by rewrite decide_True. }
  destruct H as [? | [Hd Hs]]; [done |].
  destruct (decide (socket d = NULL)) as [Hsn | Hsn].
  { rewrite bool_decide_eq_true_2 by (by right).
    unfold qt_serial_close. rewrite decide_False by done.
    unfold bind. rewrite (load_serial_live _ _ _ Hd).
    by rewrite decide_True. }
  destruct Hs as [? | Hs]; [done |].
  rewrite bool_decide_eq_false_2 by tauto.
  by apply qt_serial_close_live.
Qed.

Lemma qt_serial_close_succeeds_witness :
  (heap (one_handle connected_socket) !! 1%N
     = Some (mk_cell (Serial (mk_serial_t NULL 2%N (-1))) true) /\
   heap (one_handle connected_socket) !! 2%N
     = Some (mk_cell (Socket connected_socket) true)) /\
  qt_serial_close 1%N (one_handle connected_socket)
    = Ret (DC_STATUS_SUCCESS : Z)
          (closed 1%N (mk_serial_t NULL 2%N (-1)) connected_socket
             (one_handle connected_socket)).
Proof.
  split; [split; reflexivity |].
  apply (qt_serial_close_succeeds 1%N (mk_serial_t NULL 2%N (-1))
           connected_socket (one_handle connected_socket)).
  right. split; [reflexivity | right; reflexivity].
Defined.

(** C8 as stated fails: closing the handle a second time is not a trivial
    success.  The call reads the freed handle and the deleted socket,
    deletes the socket again and frees the handle again. *)
Lemma qt_serial_close_twice_double_free :
  let w1 := final (qt_serial_close 1%N (one_handle connected_socket)) in
  returned (qt_serial_close 1%N (one_handle connected_socket))
    = Some (DC_STATUS_SUCCESS : Z) /\
  faults w1 = [] /\
  faults (final (qt_serial_close 1%N w1))
    = [UseAfterFree 1%N; UseAfterFree 2%N; DoubleFree 2%N; DoubleFree 1%N] /\
  calls (final (qt_serial_close 1%N w1))
    = [SocketClose 2%N; SocketClose 2%N].
Proof. vm_compute. repeat split. Qed.

(** ** read and write of nothing *)

(** C10: with [size = 0] both [qt_serial_read] and [qt_serial_write] return
    0 at once for a handle that is not null and holds a socket: the world,
    and with it the log of socket calls and waits, and the buffer are
    unchanged. *)
Theorem qt_serial_read_write_zero (device : ptr) (d : serial_t) (data rx : buffer)
    (script : list transfer) (w : world) :
  device <> NULL ->
  heap w !! device = Some (mk_cell (Serial d) true) ->
  socket d <> NULL ->
  qt_serial_read device data 0 rx script w = Ret (0, data) w /\
  qt_serial_write device data 0 script w = Ret 0 w.
Proof.
  intros Hnn Hd Hs.
  unfold qt_serial_read, qt_serial_write.
  rewrite !decide_False by done.
  unfold bind. rewrite (load_serial_live _ _ _ Hd).
  rewrite !decide_False by done.
  split; by destruct script.
Qed.

Lemma qt_serial_read_write_zero_witness :
  let w := one_handle connected_socket in
  let data : buffer := fun _ => Byte.x00 in
  let script := [mk_transfer 3 ENONE] in
  heap w !! 1%N = Some (mk_cell (Serial (mk_serial_t NULL 2%N (-1))) true) /\
  qt_serial_read 1%N data 0 data script w = Ret (0, data) w /\
  qt_serial_write 1%N data 0 script w = Ret 0 w.
Proof.
  intros w data script. split; [reflexivity |].
  apply (qt_serial_read_write_zero 1%N (mk_serial_t NULL 2%N (-1)) data data script w);
    [discriminate | reflexivity | discriminate].
Defined.

(** ** The transfer loops *)

(** Case analysis on the comparisons of the goal. *)
Ltac zcompare :=
  repeat match goal with
    | |- context [?a <=? ?b] => destruct (Z.leb_spec a b)
    | |- context [?a <? ?b] => destruct (Z.ltb_spec a b)
    | |- context [?a =? ?b] => destruct (Z.eqb_spec a b)
    end.

Lemma gained_nonneg t : 0 <= gained t.
Proof. unfold gained. lia. Qed.

Lemma total_nonneg l : 0 <= total l.
Proof. induction l as [| t l IH]; simpl; [lia | pose proof (gained_nonneg t); lia]. Qed.

Lemma total_app l1 l2 : total (l1 ++ l2) = total l1 + total l2.
Proof. induction l1 as [| t l1 IH]; simpl; lia. Qed.

Lemma retried_spec t :
  retried t = true ->
  INT_MIN <= transferred t < 0 /\ is_transient (errno t) = true /\ gained t = 0.
Proof.
  unfold retried, gained. rewrite !andb_true_iff, Z.leb_le, Z.ltb_lt.
  intros [[H1 H2] H3]. repeat split; try done; lia.
Qed.

Lemma delivers_spec t :
  delivers t = true -> 0 <= transferred t <= INT_MAX /\ gained t = transferred t.
Proof.
  unfold delivers, gained. rewrite andb_true_iff, !Z.leb_le.
  intros [H1 H2]. lia.
Qed.

(** The bytes of the stream land in the buffer in the order they arrive:
    after a sequence of outcomes that start at offset [nbytes] and stream
    position [pos], the buffer holds the next [total l] bytes of the
    stream from [nbytes] on and is otherwise as before. *)
Lemma fill_spec rx l : forall nbytes pos data i,
  forallb read_goes_on l = true ->
  fill rx l nbytes pos data i =
    if (nbytes <=? i) && (i <? nbytes + total l) then rx (pos + (i - nbytes)) else data i.
Proof.
  induction l as [| t l IH]; intros nbytes pos data i Hl; simpl.
  - replace (nbytes + 0) with nbytes by lia.
    zcompare; simpl; try reflexivity; lia.
  - simpl in Hl. apply andb_true_iff in Hl as [Ht Hl].
    rewrite IH by exact Hl. unfold deliver.
    pose proof (total_nonneg l) as Hn.
    assert (Hg : 0 <= gained t /\
                 (transferred t < 0 /\ gained t = 0 \/ transferred t = gained t)).
    { unfold read_goes_on in Ht. apply orb_true_iff in Ht as [Ht | Ht].
      - apply retried_spec in Ht. lia.
      - apply delivers_spec in Ht. lia. }
    zcompare; simpl; try reflexivity; try lia; f_equal; lia.
Qed.

Section Loops.

Variables (s : ptr) (q : QBluetoothSocket) (msecs size : Z) (rx : buffer).

Hypothesis size_range : 0 <= size <= UINT_MAX.

Lemma heap_add_calls l w : heap (add_calls l w) = heap w.
Proof. reflexivity. Qed.

(** One round of the read loop on an outcome it goes on after. *)
Lemma read_loop_step t script nbytes pos data w :
  heap w !! s = Some (mk_cell (Socket q) true) ->
  read_goes_on t = true ->
  0 <= nbytes < size ->
  nbytes + gained t <= size ->
  read_loop s msecs size rx (t :: script) nbytes pos data w =
  read_loop s msecs size rx script (nbytes + gained t) (pos + gained t)
    (deliver rx pos (transferred t) nbytes data)
    (add_calls (read_trace s msecs size nbytes [t]) w).
Proof using size_range.
  intros Hs Ht Hn Hg. simpl.
  destruct (Z.ltb_spec nbytes size); [| lia].
  unfold bind at 1. rewrite (on_socket_live _ _ _ _ Hs).
  unfold bind at 1. rewrite (on_socket_live _ q) by exact Hs.
  rewrite add_calls_app.
  rewrite (to_uint_id (size - nbytes)) by lia.
  unfold read_goes_on in Ht. apply orb_true_iff in Ht as [Ht | Ht].
  - apply retried_spec in Ht as (Hr & Htr & Hz).
    rewrite to_int_id by (unfold INT_MIN, INT_MAX in *; lia).
    destruct (Z.ltb_spec (transferred t) 0); [| lia].
    rewrite Htr.
    destruct (Z.eqb_spec (transferred t) 0); [lia |].
    rewrite Hz. rewrite !Z.add_0_r. unfold gained in Hz.
    replace (Z.max 0 (transferred t)) with 0 by lia. rewrite Z.add_0_r.
    simpl. reflexivity.
  - apply delivers_spec in Ht as (Hr & Hz).
    rewrite to_int_id by lia.
    destruct (Z.ltb_spec (transferred t) 0); [lia |].
    rewrite Hz in *. fold (gained t). rewrite Hz.
    rewrite to_uint_id by lia.
    destruct (Z.eqb_spec (transferred t) 0).
    + unfold bind at 1. rewrite (on_socket_live _ q) by exact Hs.
      rewrite add_calls_app. reflexivity.
    + unfold bind at 1. unfold ret at 1. simpl. reflexivity.
Qed.

(** The read loop runs through a prefix of outcomes it goes on after, as
    long as bytes are still missing at its end. *)
Lemma read_loop_prefix pre : forall rest nbytes pos data w,
  heap w !! s = Some (mk_cell (Socket q) true) ->
  forallb read_goes_on pre = true ->
  0 <= nbytes ->
  nbytes + total pre < size ->
  read_loop s msecs size rx (pre ++ rest) nbytes pos data w =
  read_loop s msecs size rx rest (nbytes + total pre) (pos + total pre)
    (fill rx pre nbytes pos data)
    (add_calls (read_trace s msecs size nbytes pre) w).
Proof using size_range.
  induction pre as [| t pre IH]; intros rest nbytes pos data w Hs Hpre Hn Ht.
  - simpl. rewrite !Z.add_0_r, add_calls_nil. reflexivity.
  - simpl in Hpre. apply andb_true_iff in Hpre as [Hgo Hpre].
    simpl total in *. pose proof (total_nonneg pre). pose proof (gained_nonneg t).
    rewrite <- app_comm_cons.
    rewrite read_loop_step by (try done; lia).
    rewrite IH by (try done; lia).
    rewrite add_calls_app. rewrite !Z.add_assoc.
    simpl fill. f_equal. f_equal. simpl.
    destruct (transferred t =? 0); reflexivity.
Qed.

(** One round of the write loop on an outcome it goes on after. *)
Lemma write_loop_step t script nbytes w :
  heap w !! s = Some (mk_cell (Socket q) true) ->
  write_goes_on t = true ->
  0 <= nbytes < size ->
  nbytes + gained t <= size ->
  write_loop s msecs size (t :: script) nbytes w =
  write_loop s msecs size script (nbytes + gained t)
    (add_calls (write_trace s msecs size nbytes [t]) w).
Proof using size_range.
  intros Hs Ht Hn Hg. simpl.
  destruct (Z.ltb_spec nbytes size); [| lia].
  unfold bind at 1. rewrite (on_socket_live _ _ _ _ Hs).
  unfold bind at 1. rewrite (on_socket_live _ q) by exact Hs.
  rewrite add_calls_app.
  rewrite (to_uint_id (size - nbytes)) by lia.
  unfold write_goes_on in Ht. apply orb_true_iff in Ht as [Ht | Ht].
  - apply retried_spec in Ht as (Hr & Htr & Hz).
    rewrite to_int_id by (unfold INT_MIN, INT_MAX in *; lia).
    destruct (Z.ltb_spec (transferred t) 0); [| lia].
    rewrite Htr, Hz, Z.add_0_r. reflexivity.
  - apply andb_true_iff in Ht as [Ht Hpos]. apply Z.ltb_lt in Hpos.
    apply delivers_spec in Ht as (Hr & Hz).
    rewrite to_int_id by lia.
    destruct (Z.ltb_spec (transferred t) 0); [lia |].
    destruct (Z.eqb_spec (transferred t) 0); [lia |].
    rewrite Hz. rewrite to_uint_id by lia. reflexivity.
Qed.

Lemma write_loop_prefix pre : forall rest nbytes w,
  heap w !! s = Some (mk_cell (Socket q) true) ->
  forallb write_goes_on pre = true ->
  0 <= nbytes ->
  nbytes + total pre < size ->
  write_loop s msecs size (pre ++ rest) nbytes w =
  write_loop s msecs size rest (nbytes + total pre)
    (add_calls (write_trace s msecs size nbytes pre) w).
Proof using size_range.
  induction pre as [| t pre IH]; intros rest nbytes w Hs Hpre Hn Ht.
  - simpl. rewrite !Z.add_0_r, add_calls_nil. reflexivity.
  - simpl in Hpre. apply andb_true_iff in Hpre as [Hgo Hpre].
    simpl total in *. pose proof (total_nonneg pre). pose proof (gained_nonneg t).
    rewrite <- app_comm_cons.
    rewrite write_loop_step by (try done; lia).
    rewrite IH by (try done; lia).
    rewrite add_calls_app. rewrite !Z.add_assoc. reflexivity.
Qed.

End Loops.

Lemma read_trace_app s msecs size l1 : forall l2 nbytes,
  read_trace s msecs size nbytes (l1 ++ l2) =
  read_trace s msecs size nbytes l1 ++ read_trace s msecs size (nbytes + total l1) l2.
Proof.
  induction l1 as [| t l1 IH]; intros l2 nbytes; simpl.
  - by rewrite Z.add_0_r.
  - rewrite IH, Z.add_assoc. by rewrite <- !app_assoc.
Qed.

Lemma write_trace_app s msecs size l1 : forall l2 nbytes,
  write_trace s msecs size nbytes (l1 ++ l2) =
  write_trace s msecs size nbytes l1 ++ write_trace s msecs size (nbytes + total l1) l2.
Proof.
  induction l1 as [| t l1 IH]; intros l2 nbytes; simpl.
  - by rewrite Z.add_0_r.
  - by rewrite IH, Z.add_assoc.
Qed.

(** Entering the loops: the guard of a handle that is not null and holds a
    socket. *)
Lemma qt_serial_read_enter device d data size rx script w :
  device <> NULL ->
  heap w !! device = Some (mk_cell (Serial d) true) ->
  socket d <> NULL ->
  qt_serial_read device data size rx script w =
  read_loop (socket d) (to_int (timeout d)) size rx script 0 0 data w.
Proof.
  intros Hnn Hd Hs. unfold qt_serial_read.
  rewrite decide_False by done.
  unfold bind. rewrite (load_serial_live _ _ _ Hd).
  by rewrite decide_False.
Qed.

Lemma qt_serial_write_enter device d data size script w :
  device <> NULL ->
  heap w !! device = Some (mk_cell (Serial d) true) ->
  socket d <> NULL ->
  qt_serial_write device data size script w =
  write_loop (socket d) (to_int (timeout d)) size script 0 w.
Proof.
  intros Hnn Hd Hs. unfold qt_serial_write.
  rewrite decide_False by done.
  unfold bind. rewrite (load_serial_live _ _ _ Hd).
  by rewrite decide_False.
Qed.

(** ** read: accumulation *)

(** What [qt_serial_read] does for any size an [unsigned int] can hold,
    when the transfer calls yield transient failures, reads of no bytes and
    partial deliveries that add up to less than [size], and then the
    delivery of the missing bytes: the buffer is filled from the stream,
    and the value returned is [size] converted to [int]. *)
Lemma qt_serial_read_completes device d q data rx size pre t w :
  device <> NULL ->
  heap w !! device = Some (mk_cell (Serial d) true) ->
  socket d <> NULL ->
  heap w !! socket d = Some (mk_cell (Socket q) true) ->
  0 <= size <= UINT_MAX ->
  forallb read_goes_on pre = true ->
  total pre < size ->
  transferred t = size - total pre ->
  transferred t <= INT_MAX ->
  exists data',
    qt_serial_read device data size rx (pre ++ [t]) w =
      Ret (to_int size, data')
          (add_calls (read_trace (socket d) (to_int (timeout d)) size 0 (pre ++ [t])) w) /\
    (forall i, 0 <= i < size -> data' i = rx i) /\
    (forall i, ~ 0 <= i < size -> data' i = data i).
Proof.
  intros Hnn Hd Hsn Hs Hrange Hpre Htot Ht Htmax.
  pose proof (total_nonneg pre) as Hp.
  assert (Hgo : read_goes_on t = true).
  { unfold read_goes_on, delivers. apply orb_true_iff. right.
    apply andb_true_iff. rewrite !Z.leb_le. lia. }
  assert (Hg : gained t = size - total pre) by (unfold gained; lia).
  exists (deliver rx (total pre) (transferred t) (total pre) (fill rx pre 0 0 data)).
  split; [| split].
  - rewrite (qt_serial_read_enter _ d) by done.
    rewrite (read_loop_prefix _ q) by (try done; lia).
    rewrite !Z.add_0_l.
    rewrite (read_loop_step _ q) by (try done; simpl; lia).
    rewrite add_calls_app, read_trace_app, Z.add_0_l.
    rewrite Hg.
    replace (total pre + (size - total pre)) with size by lia.
    simpl read_loop. rewrite Z.ltb_irrefl. reflexivity.
  - intros i Hi. unfold deliver. rewrite fill_spec by done.
    rewrite Ht. zcompare; simpl; try lia; f_equal; lia.
  - intros i Hi. unfold deliver. rewrite fill_spec by done.
    rewrite Ht. zcompare; simpl; try lia; reflexivity.
Qed.

(** As long as the deliveries fall short of [size], [qt_serial_read] does
    not return: it never reports a short read. *)
Lemma qt_serial_read_pending device d q data rx size script w :
  device <> NULL ->
  heap w !! device = Some (mk_cell (Serial d) true) ->
  socket d <> NULL ->
  heap w !! socket d = Some (mk_cell (Socket q) true) ->
  0 <= size <= UINT_MAX ->
  forallb read_goes_on script = true ->
  total script < size ->
  returned (qt_serial_read device data size rx script w) = None.
Proof.
  intros Hnn Hd Hsn Hs Hrange Hpre Htot.
  pose proof (total_nonneg script) as Hp.
  rewrite (qt_serial_read_enter _ d) by done.
  rewrite <- (app_nil_r script).
  rewrite (read_loop_prefix _ q) by (try done; lia).
  simpl read_loop.
  destruct (Z.ltb_spec (0 + total script) size); [reflexivity | lia].
Qed.

(** C6, as amended (the requested size is at most [INT_MAX]): on a handle
    with a live socket, when the transfer calls yield transient failures,
    reads of no bytes and partial deliveries that add up to less than
    [size], and then the delivery of the missing bytes, [qt_serial_read]
    returns [size]; the first [size] bytes of the buffer are the first
    [size] bytes of the stream, in order, the rest of the buffer is
    untouched; and the calls made are, per outcome, a wait for readability
    and a read at the offset reached so far, with a wait for the arrival of
    data after each read of no bytes. *)
Theorem qt_serial_read_accumulates (device : ptr) (d : serial_t) (q : QBluetoothSocket)
    (data rx : buffer) (size : Z) (pre : list transfer) (t : transfer) (w : world) :
  device <> NULL ->
  heap w !! device = Some (mk_cell (Serial d) true) ->
  socket d <> NULL ->
  heap w !! socket d = Some (mk_cell (Socket q) true) ->
  0 <= size <= INT_MAX ->
  forallb read_goes_on pre = true ->
  total pre < size ->
  transferred t = size - total pre ->
  exists data',
    qt_serial_read device data size rx (pre ++ [t]) w =
      Ret (size, data')
          (add_calls (read_trace (socket d) (to_int (timeout d)) size 0 (pre ++ [t])) w) /\
    (forall i, 0 <= i < size -> data' i = rx i) /\
    (forall i, ~ 0 <= i < size -> data' i = data i).
Proof.
  intros Hnn Hd Hsn Hs Hsize Hpre Htot Ht.
  pose proof (total_nonneg pre) as Hp.
  destruct (qt_serial_read_completes device d q data rx size pre t w)
    as (data' & Hrun & Hin & Hout); try done.
  { unfold INT_MAX, UINT_MAX in *. lia. }
  { lia. }
  rewrite to_int_id in Hrun by (unfold INT_MAX in *; lia).
  by exists data'.
Qed.

(** Six bytes arriving as 2 + 3 + 1, with a read of no bytes and an
    interrupted call in between. *)
Lemma qt_serial_read_accumulates_witness :
  let w := one_handle connected_socket in
  let pre := [mk_transfer 2 ENONE; mk_transfer 0 ENONE;
              mk_transfer (-1) EINTR; mk_transfer 3 ENONE] in
  let t := mk_transfer 1 ENONE in
  total pre < 6 /\
  exists data',
    qt_serial_read 1%N blank 6 counting (pre ++ [t]) w =
      Ret (6, data')
          (add_calls
             [WaitForReadyRead 2%N (-1); SocketRead 2%N 0 6;
              WaitForReadyRead 2%N (-1); SocketRead 2%N 2 4; AwaitReadyRead 2%N;
              WaitForReadyRead 2%N (-1); SocketRead 2%N 2 4;
              WaitForReadyRead 2%N (-1); SocketRead 2%N 2 4;
              WaitForReadyRead 2%N (-1); SocketRead 2%N 5 1] w) /\
    (forall i, 0 <= i < 6 -> data' i = counting i) /\
    (forall i, ~ 0 <= i < 6 -> data' i = blank i).
Proof.
  intros w pre t. split; [vm_compute; reflexivity |].
  apply (qt_serial_read_accumulates 1%N (mk_serial_t NULL 2%N (-1)) connected_socket
           blank counting 6 pre t w);
    first [discriminate | reflexivity | (vm_compute; split; discriminate)].
Defined.

(** C6 as stated fails for a size above [INT_MAX]: with [size = 2^31] and
    two deliveries of [2^30] bytes the buffer is full, and the value
    returned is [- 2^31]. *)
Lemma qt_serial_read_large_size_wraps :
  let w := one_handle connected_socket in
  let script := [mk_transfer (2 ^ 30) ENONE; mk_transfer (2 ^ 30) ENONE] in
  forallb read_goes_on script = true /\
  total script = 2 ^ 31 /\
  fst <$> returned (qt_serial_read 1%N blank (2 ^ 31) counting script w)
    = Some (- 2 ^ 31) /\
  fst <$> returned (qt_serial_read 1%N blank (2 ^ 31) counting script w)
    <> Some (2 ^ 31).
Proof. vm_compute. repeat split; discriminate. Qed.

(** ** read and write: hard failures *)

(** C5, as amended: on a handle with a live socket, when a transfer call
    fails and [errno] is neither [EINTR] nor [EAGAIN], [qt_serial_read] and
    [qt_serial_write] return at once, whatever was transferred before and
    whatever the transport would have yielded next, and the value they
    return is -1 (not the status code [DC_STATUS_IO], and no byte count). *)
Theorem qt_serial_read_write_hard_failure (device : ptr) (d : serial_t) (q : QBluetoothSocket)
    (data rx : buffer) (size : Z) (pre : list transfer) (t : transfer)
    (post : list transfer) (w : world) :
  device <> NULL ->
  heap w !! device = Some (mk_cell (Serial d) true) ->
  socket d <> NULL ->
  heap w !! socket d = Some (mk_cell (Socket q) true) ->
  0 <= size <= UINT_MAX ->
  total pre < size ->
  is_hard t = true ->
  (forallb read_goes_on pre = true ->
   exists data',
     qt_serial_read device data size rx (pre ++ t :: post) w =
       Ret (-1, data')
           (add_calls
              (read_trace (socket d) (to_int (timeout d)) size 0 pre
               ++ [WaitForReadyRead (socket d) (to_int (timeout d));
                   SocketRead (socket d) (total pre) (size - total pre)]) w)) /\
  (forallb write_goes_on pre = true ->
   qt_serial_write device data size (pre ++ t :: post) w =
     Ret (-1)
         (add_calls
            (write_trace (socket d) (to_int (timeout d)) size 0 pre
             ++ [WaitForBytesWritten (socket d) (to_int (timeout d));
                 SocketWrite (socket d) (total pre) (size - total pre)]) w)).
Proof.
  intros Hnn Hd Hsn Hs Hsize Htot Hhard.
  pose proof (total_nonneg pre) as Hp.
  unfold is_hard in Hhard. apply andb_true_iff in Hhard as [Hneg Herr].
  apply negb_true_iff in Herr.
  split; intros Hpre.
  - eexists.
    rewrite (qt_serial_read_enter _ d) by done.
    rewrite (read_loop_prefix _ q) by (try done; lia).
    rewrite !Z.add_0_l. simpl read_loop.
    destruct (Z.ltb_spec (total pre) size); [| lia].
    unfold bind at 1. rewrite (on_socket_live _ q) by exact Hs.
    unfold bind at 1. rewrite (on_socket_live _ q) by exact Hs.
    rewrite Hneg, Herr. unfold ret.
    rewrite !add_calls_app.
    rewrite (to_uint_id (size - total pre)) by lia.
    reflexivity.
  - rewrite (qt_serial_write_enter _ d) by done.
    rewrite (write_loop_prefix _ q) by (try done; lia).
    rewrite !Z.add_0_l. simpl write_loop.
    destruct (Z.ltb_spec (total pre) size); [| lia].
    unfold bind at 1. rewrite (on_socket_live _ q) by exact Hs.
    unfold bind at 1. rewrite (on_socket_live _ q) by exact Hs.
    rewrite Hneg, Herr. unfold ret.
    rewrite !add_calls_app.
    rewrite (to_uint_id (size - total pre)) by lia.
    reflexivity.
Qed.

(** Three of eight bytes transferred, then the connection is reset. *)
Lemma qt_serial_read_write_hard_failure_witness :
  let w := one_handle connected_socket in
  let pre := [mk_transfer 3 ENONE] in
  let t := mk_transfer (-1) ECONNRESET in
  let post := [mk_transfer 5 ENONE] in
  (total pre < 8 /\ is_hard t = true) /\
  (exists data',
     qt_serial_read 1%N blank 8 counting (pre ++ t :: post) w =
       Ret (-1, data')
           (add_calls [WaitForReadyRead 2%N (-1); SocketRead 2%N 0 8;
                       WaitForReadyRead 2%N (-1); SocketRead 2%N 3 5] w)) /\
  qt_serial_write 1%N blank 8 (pre ++ t :: post) w =
    Ret (-1)
        (add_calls [WaitForBytesWritten 2%N (-1); SocketWrite 2%N 0 8;
                    WaitForBytesWritten 2%N (-1); SocketWrite 2%N 3 5] w).
Proof.
  intros w pre t post.
  assert (H1 : total pre < 8) by (vm_compute; reflexivity).
  assert (H2 : is_hard t = true) by reflexivity.
  assert (H3 : 0 <= 8 <= UINT_MAX) by (vm_compute; split; discriminate).
  split; [by split |].
  pose proof (qt_serial_read_write_hard_failure 1%N (mk_serial_t NULL 2%N (-1))
                connected_socket blank counting 8 pre t post w
                ltac:(discriminate) eq_refl ltac:(discriminate) eq_refl H3 H1 H2)
    as [Hr Hw].
  split; [apply Hr | apply Hw]; reflexivity.
Defined.

(** C5 as stated fails: the value returned on a hard failure is -1, which
    is not [DC_STATUS_IO] (and is the value of [DC_STATUS_UNSUPPORTED]). *)
Lemma qt_serial_read_write_failure_not_io_status :
  let w := one_handle connected_socket in
  let script := [mk_transfer 3 ENONE; mk_transfer (-1) ECONNRESET] in
  fst <$> returned (qt_serial_read 1%N blank 8 counting script w) = Some (-1) /\
  returned (qt_serial_write 1%N blank 8 script w) = Some (-1) /\
  fst <$> returned (qt_serial_read 1%N blank 8 counting script w)
    <> Some (DC_STATUS_IO : Z) /\
  returned (qt_serial_write 1%N blank 8 script w) <> Some (DC_STATUS_IO : Z).
Proof. vm_compute. repeat split; discriminate. Qed.

(** ** write: short write *)

(** What [qt_serial_write] does for any size an [unsigned int] can hold
    when, after [k < size] bytes, the socket takes nothing: it stops, and
    the value returned is [k] converted to [int]. *)
Lemma qt_serial_write_stops device d q data size pre t post w :
  device <> NULL ->
  heap w !! device = Some (mk_cell (Serial d) true) ->
  socket d <> NULL ->
  heap w !! socket d = Some (mk_cell (Socket q) true) ->
  0 <= size <= UINT_MAX ->
  forallb write_goes_on pre = true ->
  total pre < size ->
  transferred t = 0 ->
  qt_serial_write device data size (pre ++ t :: post) w =
    Ret (to_int (total pre))
        (add_calls
           (write_trace (socket d) (to_int (timeout d)) size 0 pre
            ++ [WaitForBytesWritten (socket d) (to_int (timeout d));
                SocketWrite (socket d) (total pre) (size - total pre)]) w).
Proof.
  intros Hnn Hd Hsn Hs Hsize Hpre Hlt Ht.
  pose proof (total_nonneg pre) as Hp.
  rewrite (qt_serial_write_enter _ d) by done.
  rewrite (write_loop_prefix _ q) by (try done; lia).
  rewrite !Z.add_0_l. simpl write_loop.
  destruct (Z.ltb_spec (total pre) size); [| lia].
  unfold bind at 1. rewrite (on_socket_live _ q) by exact Hs.
  unfold bind at 1. rewrite (on_socket_live _ q) by exact Hs.
  rewrite Ht. change (to_int 0) with 0. simpl.
  unfold ret. rewrite !add_calls_app.
  rewrite (to_uint_id (size - total pre)) by lia.
  reflexivity.
Qed.

(** C7, as amended (the count reached is at most [INT_MAX]): on a handle
    with a live socket, when [qt_serial_write] has transferred [k < size]
    bytes and the next call of the socket's write returns 0, it makes no
    further call and returns [k]. *)
Theorem qt_serial_write_short (device : ptr) (d : serial_t) (q : QBluetoothSocket)
    (data : buffer) (size k : Z) (pre : list transfer) (t : transfer)
    (post : list transfer) (w : world) :
  device <> NULL ->
  heap w !! device = Some (mk_cell (Serial d) true) ->
  socket d <> NULL ->
  heap w !! socket d = Some (mk_cell (Socket q) true) ->
  0 <= size <= UINT_MAX ->
  forallb write_goes_on pre = true ->
  total pre = k ->
  k < size ->
  k <= INT_MAX ->
  transferred t = 0 ->
  qt_serial_write device data size (pre ++ t :: post) w =
    Ret k
        (add_calls
           (write_trace (socket d) (to_int (timeout d)) size 0 pre
            ++ [WaitForBytesWritten (socket d) (to_int (timeout d));
                SocketWrite (socket d) k (size - k)]) w).
Proof.
  intros Hnn Hd Hsn Hs Hsize Hpre Hk Hlt Hmax Ht. subst k.
  pose proof (total_nonneg pre) as Hp.
  rewrite (qt_serial_write_stops device d q) by done.
  rewrite to_int_id by (unfold INT_MAX in *; lia).
  reflexivity.
Qed.

(** Five of eight bytes accepted in two writes, with an interrupted call in
    between, then the socket takes nothing. *)
Lemma qt_serial_write_short_witness :
  let w := one_handle connected_socket in
  let pre := [mk_transfer 2 ENONE; mk_transfer (-1) EAGAIN; mk_transfer 3 ENONE] in
  let t := mk_transfer 0 ENONE in
  let post := [mk_transfer 3 ENONE] in
  (forallb write_goes_on pre = true /\ total pre = 5) /\
  qt_serial_write 1%N blank 8 (pre ++ t :: post) w =
    Ret 5
        (add_calls [WaitForBytesWritten 2%N (-1); SocketWrite 2%N 0 8;
                    WaitForBytesWritten 2%N (-1); SocketWrite 2%N 2 6;
                    WaitForBytesWritten 2%N (-1); SocketWrite 2%N 2 6;
                    WaitForBytesWritten 2%N (-1); SocketWrite 2%N 5 3] w).
Proof.
  intros w pre t post. split; [split; reflexivity |].
  apply (qt_serial_write_short 1%N (mk_serial_t NULL 2%N (-1)) connected_socket
           blank 8 5 pre t post w);
    first [discriminate | reflexivity | (vm_compute; split; discriminate)
          | (vm_compute; discriminate)].
Defined.

(** C7 as stated fails for a count above [INT_MAX]: after [2^31] of
    [2^32 - 1] bytes were accepted, a write of no bytes makes the call
    return [- 2^31]. *)
Lemma qt_serial_write_short_large_wraps :
  let w := one_handle connected_socket in
  let pre := [mk_transfer (2 ^ 30) ENONE; mk_transfer (2 ^ 30) ENONE] in
  let t := mk_transfer 0 ENONE in
  forallb write_goes_on pre = true /\
  total pre = 2 ^ 31 /\
  2 ^ 31 < UINT_MAX /\
  returned (qt_serial_write 1%N blank UINT_MAX (pre ++ [t]) w) = Some (- 2 ^ 31) /\
  returned (qt_serial_write 1%N blank UINT_MAX (pre ++ [t]) w) <> Some (2 ^ 31).
Proof. vm_compute. repeat split; discriminate. Qed.

(** ** open: how a call runs *)

Lemma bind_Ret {A B} (m : M A) (k : A -> M B) w a w' :
  m w = Ret a w' -> bind m k w = k a w'.
Proof. unfold bind. by intros ->. Qed.

Lemma store_live a o o' w :
  heap w !! a = Some (mk_cell o true) ->
  store a o' w = Ret tt (set_heap (<[a := mk_cell o' true]> (heap w)) w).
Proof. unfold store. by intros ->. Qed.

Lemma fresh_addr_spec w : fresh_addr w <> NULL /\ heap w !! fresh_addr w = None.
Proof.
  pose proof (is_fresh ({[NULL]} ∪ dom (heap w))) as H.
  change (fresh ({[NULL]} ∪ dom (heap w))) with (fresh_addr w) in H.
  split.
  - intros E. apply H. rewrite E. set_solver.
  - apply not_elem_of_dom. set_solver.
Qed.

Lemma second_addr_spec w :
  second_addr w <> NULL /\ second_addr w <> fresh_addr w /\
  heap w !! second_addr w = None.
Proof.
  pose proof (is_fresh ({[NULL]} ∪ ({[fresh_addr w]} ∪ dom (heap w)))) as H.
  change (fresh ({[NULL]} ∪ ({[fresh_addr w]} ∪ dom (heap w))))
    with (second_addr w) in H.
  repeat split.
  - intros E. apply H. rewrite E. set_solver.
  - intros E. apply H. rewrite E. set_solver.
  - apply not_elem_of_dom. set_solver.
Qed.

Lemma malloc_run o w :
  malloc_ok w = true ->
  malloc o w =
    Ret (fresh_addr w)
        (mk_world (<[fresh_addr w := mk_cell o true]> (heap w))
           (faults w) (calls w) (tail (allocs w))).
Proof.
  unfold malloc_ok, malloc, allocate. destruct w as [h fs cs al]. simpl.
  destruct al as [| [] al]; simpl; intros H; try discriminate; reflexivity.
Qed.

Lemma malloc_fails o w :
  malloc_ok w = false ->
  malloc o w = Ret NULL (mk_world (heap w) (faults w) (calls w) (tail (allocs w))).
Proof.
  unfold malloc_ok, malloc. destruct w as [h fs cs al]. simpl.
  destruct al as [| [] al]; simpl; intros H; try discriminate; reflexivity.
Qed.

Section OpenWorld.

Variables (h : gmap N cell) (al : list bool).
Variables (sp s context : ptr).
Hypothesis sp_s : s <> sp.

Lemma open_world_serial alive fs q cs :
  heap (open_world alive h fs al sp s context q cs) !! sp
    = Some (mk_cell (Serial (mk_serial_t context s (-1))) alive).
Proof using sp_s. simpl. rewrite lookup_insert_ne by done. apply lookup_insert_eq. Qed.

Lemma open_world_socket alive fs q cs :
  heap (open_world alive h fs al sp s context q cs) !! s
    = Some (mk_cell (Socket q) true).
Proof. simpl. apply lookup_insert_eq. Qed.

Lemma socket_of_open_world fs q cs :
  socket_of sp (open_world true h fs al sp s context q cs)
    = Ret s (open_world true h fs al sp s context q cs).
Proof using sp_s.
  unfold socket_of.
  by rewrite (bind_Ret _ _ _ _ _ (load_serial_live _ _ _ (open_world_serial true fs q cs))).
Qed.

Lemma connectToService_open_world devaddr channel fs q cs :
  connectToService sp devaddr channel (open_world true h fs al sp s context q cs)
    = Ret tt (open_world true h fs al sp s context q
                (cs ++ [ConnectToService s devaddr channel])).
Proof using sp_s.
  unfold connectToService.
  rewrite (bind_Ret _ _ _ _ _ (socket_of_open_world fs q cs)).
  by rewrite (on_socket_live _ _ _ _ (open_world_socket true fs q cs)).
Qed.

Lemma log_open_world c alive fs q cs :
  log c (open_world alive h fs al sp s context q cs)
    = Ret tt (open_world alive h fs al sp s context q (cs ++ [c])).
Proof. reflexivity. Qed.

Lemma socket_state_open_world fs q cs :
  socket_state sp (open_world true h fs al sp s context q cs)
    = Ret (state q) (open_world true h fs al sp s context q cs).
Proof using sp_s.
  unfold socket_state.
  rewrite (bind_Ret _ _ _ _ _ (socket_of_open_world fs q cs)).
  by rewrite (bind_Ret _ _ _ _ _ (load_socket_live _ _ _ (open_world_socket true fs q cs))).
Qed.

Lemma socket_descriptor_open_world fs q cs :
  socket_descriptor sp (open_world true h fs al sp s context q cs)
    = Ret (socketDescriptor q) (open_world true h fs al sp s context q cs).
Proof using sp_s.
  unfold socket_descriptor.
  rewrite (bind_Ret _ _ _ _ _ (socket_of_open_world fs q cs)).
  by rewrite (bind_Ret _ _ _ _ _ (load_socket_live _ _ _ (open_world_socket true fs q cs))).
Qed.

(** After [free (serial_port)] the handle is read again: the read yields
    the socket pointer that was left there, and is a fault. *)
Lemma socket_of_freed fs q cs :
  socket_of sp (open_world false h fs al sp s context q cs)
    = Ret s (open_world false h (fs ++ [UseAfterFree sp]) al sp s context q cs).
Proof using sp_s.
  unfold socket_of, load_serial, bind.
  rewrite (load_dead _ _ _ (open_world_serial false fs q cs)).
  reflexivity.
Qed.

Lemma free_open_world fs q cs :
  sp <> NULL ->
  free sp (open_world true h fs al sp s context q cs)
    = Ret tt (open_world false h fs al sp s context q cs).
Proof using sp_s.
  intros Hnn. unfold free. rewrite decide_False by done.
  rewrite (release_live _ _ _ (open_world_serial true fs q cs)).
  unfold set_heap, open_world. simpl. do 2 f_equal.
  rewrite (insert_insert_ne _ sp s) by done. by rewrite insert_insert_eq.
Qed.

End OpenWorld.

Section OpenRun.

Variable QT_VERSION : Z.
Variable T : transport.

Lemma loop_exec_open_world h al sp s context fs q cs :
  loop_exec T s (open_world true h fs al sp s context q cs)
    = Ret tt (open_world true h fs al sp s context
                (T (cs ++ [LoopExec])) (cs ++ [LoopExec])).
Proof.
  unfold loop_exec, bind, log, store. simpl.
  rewrite lookup_insert_eq. simpl.
  unfold set_heap, open_world. simpl. by rewrite insert_insert_eq.
Qed.

Lemma load_serial_top sp d h fs cs al :
  load_serial sp (mk_world (<[sp := mk_cell (Serial d) true]> h) fs cs al)
    = Ret d (mk_world (<[sp := mk_cell (Serial d) true]> h) fs cs al).
Proof. apply load_serial_live. simpl. apply lookup_insert_eq. Qed.

Lemma store_top sp o o' h fs cs al :
  store sp o' (mk_world (<[sp := mk_cell o true]> h) fs cs al)
    = Ret tt (mk_world (<[sp := mk_cell o' true]> h) fs cs al).
Proof.
  rewrite (store_live _ o) by (simpl; apply lookup_insert_eq).
  unfold set_heap. simpl. by rewrite insert_insert_eq.
Qed.

Lemma set_context_top sp c d h fs cs al :
  set_context sp c (mk_world (<[sp := mk_cell (Serial d) true]> h) fs cs al)
    = Ret tt (mk_world
                (<[sp := mk_cell (Serial (mk_serial_t c (socket d) (timeout d))) true]> h)
                fs cs al).
Proof.
  unfold set_context. rewrite (bind_Ret _ _ _ _ _ (load_serial_top _ _ _ _ _ _)).
  apply store_top.
Qed.

Lemma set_timeout_top sp t d h fs cs al :
  set_timeout sp t (mk_world (<[sp := mk_cell (Serial d) true]> h) fs cs al)
    = Ret tt (mk_world
                (<[sp := mk_cell (Serial (mk_serial_t (context d) (socket d) t)) true]> h)
                fs cs al).
Proof.
  unfold set_timeout. rewrite (bind_Ret _ _ _ _ _ (load_serial_top _ _ _ _ _ _)).
  apply store_top.
Qed.

Lemma set_socket_under sp s c d h fs cs al :
  s <> sp ->
  set_socket sp s (mk_world (<[s := c]> (<[sp := mk_cell (Serial d) true]> h)) fs cs al)
    = Ret tt (mk_world
                (<[s := c]>
                   (<[sp := mk_cell (Serial (mk_serial_t (context d) s (timeout d))) true]> h))
                fs cs al).
Proof.
  intros Hne. unfold set_socket.
  assert (Hl : heap (mk_world (<[s := c]> (<[sp := mk_cell (Serial d) true]> h)) fs cs al)
               !! sp = Some (mk_cell (Serial d) true)).
  { simpl. rewrite lookup_insert_ne by done. apply lookup_insert_eq. }
  rewrite (bind_Ret _ _ _ _ _ (load_serial_live _ _ _ Hl)).
  rewrite (store_live _ _ _ _ Hl). unfold set_heap. simpl.
  rewrite (insert_insert_ne _ sp s) by done. by rewrite insert_insert_eq.
Qed.

Lemma allocate_second o c w fs cs al :
  allocate o (mk_world (<[fresh_addr w := c]> (heap w)) fs cs al)
    = Ret (second_addr w)
          (mk_world (<[second_addr w := mk_cell o true]> (<[fresh_addr w := c]> (heap w)))
             fs cs al).
Proof.
  unfold allocate, fresh_addr at 1 3, set_heap. simpl.
  rewrite dom_insert_L. reflexivity.
Qed.

(** The handle and the socket are set up (source lines 32-44). *)
Lemma qt_serial_open_setup context w (k : ptr -> ptr -> M Z) :
  malloc_ok w = true ->
  (serial_port <- malloc (Serial (mk_serial_t NULL NULL 0)) ;;
   if decide (serial_port = NULL) then ret (DC_STATUS_NOMEMORY : Z) else
   set_context serial_port context ;;;
   set_timeout serial_port (-1) ;;;
   s <- allocate (Socket (mk_socket UnconnectedState NoSocketError (-1))) ;;
   set_socket serial_port s ;;;
   k serial_port s) w
  = k (fresh_addr w) (second_addr w)
      (open_world true (heap w) (faults w) (tail (allocs w))
         (fresh_addr w) (second_addr w) context
         (mk_socket UnconnectedState NoSocketError (-1)) (calls w)).
Proof.
  intros Hm.
  destruct (fresh_addr_spec w) as [Hsp _].
  destruct (second_addr_spec w) as (_ & Hne & _).
  rewrite (bind_Ret _ _ _ _ _ (malloc_run _ _ Hm)).
  rewrite decide_False by done.
  rewrite (bind_Ret _ _ _ _ _ (set_context_top _ _ _ _ _ _ _)).
  rewrite (bind_Ret _ _ _ _ _ (set_timeout_top _ _ _ _ _ _ _)).
  rewrite (bind_Ret _ _ _ _ _ (allocate_second _ _ _ _ _ _)).
  rewrite (bind_Ret _ _ _ _ _ (set_socket_under _ _ _ _ _ _ _ _ Hne)).
  reflexivity.
Qed.

Lemma bind_assoc {A B C} (m : M A) (f : A -> M B) (g : B -> M C) w :
  bind (bind m f) g w = bind m (fun x => bind (f x) g) w.
Proof. unfold bind. by destruct (m w). Qed.

Lemma bind_ret_l {A B} (a : A) (k : A -> M B) w : bind (ret a) k w = k a w.
Proof. reflexivity. Qed.

(** One step of a call that is connecting. *)
Ltac open_step Hne :=
  rewrite ?bind_assoc;
  first
    [ rewrite (bind_Ret _ _ _ _ _ (connectToService_open_world _ _ _ _ _ Hne _ _ _ _ _))
    | rewrite (bind_Ret _ _ _ _ _ (log_open_world _ _ _ _ _ _ _ _ _ _))
    | rewrite (bind_Ret _ _ _ _ _ (loop_exec_open_world _ _ _ _ _ _ _ _))
    | rewrite (bind_Ret _ _ _ _ _ (socket_state_open_world _ _ _ _ _ Hne _ _ _))
    | rewrite (bind_Ret _ _ _ _ _ (socket_descriptor_open_world _ _ _ _ _ Hne _ _ _)) ];
  cbv beta.

(** The verdict once the waits are over (source lines 83-109). *)
Lemma qt_serial_open_verdict out h fs al sp s context q cs :
  s <> sp ->
  sp <> NULL ->
  (fd <- socket_descriptor sp ;;
   failed <- (if decide (fd = -1) then ret true
              else st <- socket_state sp ;;
                   ret (bool_decide (st ≠ ConnectedState))) ;;
   if (failed : bool) then
     free sp ;;;
     err <- socket_error sp ;;
     socket_state sp ;;;
     ret (connect_error_status QT_VERSION err)
   else
     store_loc out sp ;;;
     ret (DC_STATUS_SUCCESS : Z))
    (open_world true h fs al sp s context q cs)
  = if connect_failed q then
      Ret (connect_error_status QT_VERSION (error q))
          (open_world false h (fs ++ [UseAfterFree sp; UseAfterFree sp])
             al sp s context q cs)
    else
      (store_loc out sp ;;; ret (DC_STATUS_SUCCESS : Z))
        (open_world true h fs al sp s context q cs).
Proof.
  intros Hne Hsp.
  open_step Hne.
  assert (Hfreed :
    (free sp ;;;
     err <- socket_error sp ;;
     socket_state sp ;;;
     ret (connect_error_status QT_VERSION err))
      (open_world true h fs al sp s context q cs)
    = Ret (connect_error_status QT_VERSION (error q))
          (open_world false h (fs ++ [UseAfterFree sp; UseAfterFree sp])
             al sp s context q cs)).
  { rewrite (bind_Ret _ _ _ _ _ (free_open_world _ _ _ _ _ Hne _ _ _ Hsp)).
    unfold socket_error, socket_state.
    rewrite bind_assoc.
    rewrite (bind_Ret _ _ _ _ _ (socket_of_freed _ _ _ _ _ Hne _ _ _)).
    rewrite bind_assoc.
    rewrite (bind_Ret _ _ _ _ _
               (load_socket_live _ _ _ (open_world_socket _ _ _ _ _ _ _ _ _))).
    cbv beta. rewrite bind_ret_l. rewrite ?bind_assoc.
    rewrite (bind_Ret _ _ _ _ _ (socket_of_freed _ _ _ _ _ Hne _ _ _)).
    rewrite bind_assoc.
    rewrite (bind_Ret _ _ _ _ _
               (load_socket_live _ _ _ (open_world_socket _ _ _ _ _ _ _ _ _))).
    cbv beta. rewrite !bind_ret_l. unfold ret. rewrite <- app_assoc. reflexivity. }
  unfold connect_failed.
  destruct (decide (socketDescriptor q = -1)) as [Hfd | Hfd].
  - rewrite bool_decide_eq_true_2 by (by left).
    rewrite bind_ret_l. exact Hfreed.
  - rewrite bind_assoc. open_step Hne.
    rewrite bind_ret_l.
    destruct (decide (state q = ConnectedState)) as [Hst | Hst].
    + rewrite bool_decide_eq_false_2 by tauto.
      rewrite bool_decide_eq_false_2 by tauto. reflexivity.
    + rewrite bool_decide_eq_true_2 by done.
      rewrite bool_decide_eq_true_2 by (by right). exact Hfreed.
Qed.

(** How a call of [qt_serial_open] runs once the out parameter is not null
    and the handle could be allocated. *)
Lemma qt_serial_open_run out context devaddr w :
  out <> NullLoc ->
  malloc_ok w = true ->
  qt_serial_open QT_VERSION T out context devaddr w =
    let sp := fresh_addr w in
    let s := second_addr w in
    let L := connect_log T s devaddr (calls w) in
    if connect_failed (T L) then
      Ret (connect_error_status QT_VERSION (error (T L)))
          (open_world false (heap w) (faults w ++ [UseAfterFree sp; UseAfterFree sp])
             (tail (allocs w)) sp s context (T L) L)
    else
      (store_loc out sp ;;; ret (DC_STATUS_SUCCESS : Z))
        (open_world true (heap w) (faults w) (tail (allocs w)) sp s context (T L) L).
Proof.
  intros Hout Hm.
  destruct (fresh_addr_spec w) as [Hsp _].
  destruct (second_addr_spec w) as (_ & Hne & _).
  unfold qt_serial_open. rewrite decide_False by done.
  etrans; [apply (qt_serial_open_setup context w) with (k := fun serial_port s => _); exact Hm |].
  cbv beta zeta.
  do 3 open_step Hne.
  rewrite <- !app_assoc. simpl app.
  unfold connect_log. cbv zeta.
  set (cs1 := calls w ++ [ConnectToService (second_addr w) devaddr 1; TimerStart 5000; LoopExec]).
  set (cs2 := cs1 ++ [ConnectToService (second_addr w) devaddr 5; TimerStart 5000; LoopExec]).
  rewrite ?bind_assoc. open_step Hne.
  destruct (decide (state (T cs1) = ConnectingState)) as [E1 | E1].
  { rewrite ?bind_assoc. do 2 open_step Hne.
    rewrite <- (app_assoc cs1). simpl app.
    by apply qt_serial_open_verdict. }
  rewrite ?bind_assoc. open_step Hne.
  destruct (decide (state (T cs1) = UnconnectedState)) as [E2 | E2].
  2:{ rewrite bind_ret_l. by apply qt_serial_open_verdict. }
  rewrite ?bind_assoc. do 3 open_step Hne.
  rewrite <- !(app_assoc cs1). simpl app. fold cs2.
  rewrite ?bind_assoc. open_step Hne.
  destruct (decide (state (T cs2) = ConnectingState)) as [E3 | E3].
  - rewrite ?bind_assoc. do 2 open_step Hne.
    rewrite <- (app_assoc cs2). simpl app.
    by apply qt_serial_open_verdict.
  - rewrite bind_ret_l. by apply qt_serial_open_verdict.
Qed.

Lemma qt_serial_open_null_out context devaddr w :
  qt_serial_open QT_VERSION T NullLoc context devaddr w
    = Ret (DC_STATUS_INVALIDARGS : Z) w.
Proof. reflexivity. Qed.

Lemma qt_serial_open_no_memory out context devaddr w :
  out <> NullLoc ->
  malloc_ok w = false ->
  qt_serial_open QT_VERSION T out context devaddr w
    = Ret (DC_STATUS_NOMEMORY : Z)
          (mk_world (heap w) (faults w) (calls w) (tail (allocs w))).
Proof.
  intros Hout Hm. unfold qt_serial_open. rewrite decide_False by done.
  by rewrite (bind_Ret _ _ _ _ _ (malloc_fails _ _ Hm)).
Qed.

(** Storing through the out parameter changes neither the log of calls
    nor what the call returns afterwards. *)
Lemma store_loc_then_success out p w :
  calls (final ((store_loc out p ;;; ret (DC_STATUS_SUCCESS : Z)) w)) = calls w /\
  (returned ((store_loc out p ;;; ret (DC_STATUS_SUCCESS : Z)) w) = None \/
   returned ((store_loc out p ;;; ret (DC_STATUS_SUCCESS : Z)) w)
     = Some (DC_STATUS_SUCCESS : Z)).
Proof.
  destruct out as [| a | a]; simpl.
  - split; [reflexivity | by left].
  - unfold bind, load, store.
    destruct (heap w !! a) as [[o l] |] eqn:E; simpl; [| split; [done | by left]].
    destruct o, l; simpl; rewrite ?E; simpl; split; try done; by (left + right).
  - unfold load_dc_serial, bind, load, store.
    destruct (heap w !! a) as [[o l] |] eqn:E; simpl; [| split; [done | by left]].
    destruct o, l; simpl; rewrite ?E; simpl; split; try done; by (left + right).
Qed.

(** The calls of a run are those of [connect_log]. *)
Lemma qt_serial_open_calls out context devaddr w :
  out <> NullLoc ->
  malloc_ok w = true ->
  calls (final (qt_serial_open QT_VERSION T out context devaddr w))
    = connect_log T (second_addr w) devaddr (calls w).
Proof.
  intros Hout Hm. rewrite qt_serial_open_run by done. cbv zeta.
  destruct (connect_failed _); [reflexivity |].
  by rewrite (proj1 (store_loc_then_success _ _ _)).
Qed.

(** On a failed connection attempt the value returned is that of the
    switch on the socket's last error. *)
Lemma qt_serial_open_failed out context devaddr w :
  out <> NullLoc ->
  malloc_ok w = true ->
  connect_failed (T (connect_log T (second_addr w) devaddr (calls w))) = true ->
  returned (qt_serial_open QT_VERSION T out context devaddr w)
    = Some (connect_error_status QT_VERSION
              (error (T (connect_log T (second_addr w) devaddr (calls w))))).
Proof.
  intros Hout Hm Hf. rewrite qt_serial_open_run by done. cbv zeta.
  by rewrite Hf.
Qed.

End OpenRun.

(** ** open: classification of connection errors *)

(** The error codes the switch names are classified as the design says:
    host or service not found as [DC_STATUS_NODEVICE], unsupported
    protocol as [DC_STATUS_PROTOCOL], a network error as [DC_STATUS_IO]
    and, from Qt 5.4 on, an operation error as [DC_STATUS_UNSUPPORTED]. *)
Lemma connect_error_status_named QT_VERSION :
  connect_error_status QT_VERSION HostNotFoundError = DC_STATUS_NODEVICE /\
  connect_error_status QT_VERSION ServiceNotFoundError = DC_STATUS_NODEVICE /\
  connect_error_status QT_VERSION UnsupportedProtocolError = DC_STATUS_PROTOCOL /\
  connect_error_status QT_VERSION NetworkError = DC_STATUS_IO /\
  (0x050400 <= QT_VERSION ->
   connect_error_status QT_VERSION OperationError = DC_STATUS_UNSUPPORTED).
Proof.
  repeat split. intros H. unfold connect_error_status.
  destruct (Z.leb_spec 0x050400 QT_VERSION); [reflexivity | lia].
Qed.

(** Every other error code comes back as the socket's own
    [UnknownSocketError], which no [dc_status_t] enumerator stands for but
    whose value is that of [DC_STATUS_UNSUPPORTED]. *)
Lemma connect_error_status_other QT_VERSION err :
  err = NoSocketError \/ err = UnknownSocketError \/ err = RemoteHostClosedError ->
  connect_error_status QT_VERSION err = SocketError_value UnknownSocketError /\
  connect_error_status QT_VERSION err = DC_STATUS_UNSUPPORTED.
Proof. intros [-> | [-> | ->]]; split; reflexivity. Qed.

(** On a failed attempt the source frees the handle before it reads the
    socket's error and state through it: both reads are faults.  The socket
    itself is not deleted. *)
Lemma qt_serial_open_failed_world QT_VERSION T out context devaddr w :
  let sp := fresh_addr w in
  let s := second_addr w in
  let q := T (connect_log T s devaddr (calls w)) in
  let w' := final (qt_serial_open QT_VERSION T out context devaddr w) in
  out <> NullLoc ->
  malloc_ok w = true ->
  connect_failed q = true ->
  faults w' = faults w ++ [UseAfterFree sp; UseAfterFree sp] /\
  heap w' !! sp = Some (mk_cell (Serial (mk_serial_t context s (-1))) false) /\
  heap w' !! s = Some (mk_cell (Socket q) true).
Proof.
  intros sp s q w' Hout Hm Hf. subst w'.
  destruct (second_addr_spec w) as (_ & Hne & _).
  rewrite qt_serial_open_run by done. cbv zeta. fold s q. rewrite Hf.
  split; [reflexivity |]. split.
  - by apply open_world_serial.
  - apply open_world_socket.
Qed.

(** C1, the default branch: when the connection times out without a socket
    error, or the remote host closes it, [qt_serial_open] returns the value
    of the socket enumerator [UnknownSocketError].  That value is -1, the
    value of [DC_STATUS_UNSUPPORTED]: the caller cannot tell the outcome
    from that of an operation error, and gets no status of its own for an
    unclassified error. *)
Theorem qt_serial_open_unclassified_error :
  let w := one_handle idle_socket in
  let open T := returned (qt_serial_open 0x050900 T (CellLoc 3%N) NULL "00:11:22:33:44:55" w) in
  open silent = Some (SocketError_value UnknownSocketError) /\
  open (refusing RemoteHostClosedError) = Some (SocketError_value UnknownSocketError) /\
  open (refusing OperationError) = Some (DC_STATUS_UNSUPPORTED : Z) /\
  open silent = open (refusing OperationError) /\
  (forall s : dc_status_t,
     open silent = Some (s : Z) -> s = DC_STATUS_UNSUPPORTED).
Proof.
  vm_compute. repeat split.
  intros s H. destruct s; try discriminate H; reflexivity.
Qed.

(** ** open: channel fallback *)

(** C2, as amended: when the socket is unconnected after the first wait on
    channel 1 (the attempt was rejected within the 5000 ms, it is not
    merely slow), [qt_serial_open] next connects on channel 5 and waits
    5000 ms, without the 15000 ms wait on channel 1, and it waits another
    15000 ms on channel 5 exactly when the socket is then still
    connecting. *)
Theorem qt_serial_open_channel_fallback (QT_VERSION : Z) (T : transport) (out : loc)
    (context : ptr) (devaddr : string) (w : world) :
  let s := second_addr w in
  let cs1 := calls w ++ [ConnectToService s devaddr 1; TimerStart 5000; LoopExec] in
  let cs2 := cs1 ++ [ConnectToService s devaddr 5; TimerStart 5000; LoopExec] in
  out <> NullLoc ->
  malloc_ok w = true ->
  state (T cs1) = UnconnectedState ->
  calls (final (qt_serial_open QT_VERSION T out context devaddr w)) =
    cs2 ++ (if decide (state (T cs2) = ConnectingState)
            then [TimerStart 15000; LoopExec] else []).
Proof.
  intros s cs1 cs2 Hout Hm Hst.
  rewrite qt_serial_open_calls by done.
  unfold connect_log. fold s. cbv zeta. fold cs1. fold cs2.
  rewrite decide_False by (rewrite Hst; discriminate).
  rewrite decide_True by exact Hst.
  destruct (decide (state (T cs2) = ConnectingState)); [reflexivity |].
  by rewrite app_nil_r.
Qed.

Lemma qt_serial_open_channel_fallback_witness :
  let w := one_handle idle_socket in
  let r := qt_serial_open 0x050900 accepts_channel_5 (CellLoc 3%N) NULL "00:11:22:33:44:55" w in
  state (accepts_channel_5
           [ConnectToService 5%N "00:11:22:33:44:55" 1; TimerStart 5000; LoopExec])
    = UnconnectedState /\
  calls (final r) =
    [ConnectToService 5%N "00:11:22:33:44:55" 1; TimerStart 5000; LoopExec;
     ConnectToService 5%N "00:11:22:33:44:55" 5; TimerStart 5000; LoopExec].
Proof.
  intros w r. split; [reflexivity |].
  apply (qt_serial_open_channel_fallback 0x050900 accepts_channel_5 (CellLoc 3%N) NULL
           "00:11:22:33:44:55" w); [discriminate | reflexivity | reflexivity].
Defined.

(** C2 as stated fails: when the attempt on channel 1 is still connecting
    after the first wait and is rejected during the long wait, the socket
    is unconnected in the end, a device that would accept channel 5 is at
    hand, and [qt_serial_open] does not try channel 5: its calls are the
    attempt on channel 1 and its two waits, and it does not succeed. *)
Lemma qt_serial_open_late_rejection_no_fallback :
  let w := one_handle idle_socket in
  let r := qt_serial_open 0x050900 rejects_late (CellLoc 3%N) NULL "00:11:22:33:44:55" w in
  let cs1 := [ConnectToService 5%N "00:11:22:33:44:55" 1; TimerStart 5000; LoopExec] in
  let cs1' := cs1 ++ [TimerStart 15000; LoopExec] in
  state (rejects_late cs1) = ConnectingState /\
  state (rejects_late cs1') = UnconnectedState /\
  state (rejects_late
           (cs1' ++ [ConnectToService 5%N "00:11:22:33:44:55" 5; TimerStart 5000; LoopExec]))
    = ConnectedState /\
  calls (final r) = cs1' /\
  channels (calls (final r)) = [1] /\
  returned r <> Some (DC_STATUS_SUCCESS : Z).
Proof. vm_compute. repeat split; discriminate. Qed.

(** With that device the call succeeds: the handle is stored through the
    out parameter and its socket is connected. *)
Example qt_serial_open_fallback_connects :
  let w := one_handle idle_socket in
  let r := qt_serial_open 0x050900 accepts_channel_5 (CellLoc 3%N) NULL "00:11:22:33:44:55" w in
  returned r = Some (DC_STATUS_SUCCESS : Z) /\
  read_loc (CellLoc 3%N) (final r) = Some 4%N /\
  heap (final r) !! 4%N = Some (mk_cell (Serial (mk_serial_t NULL 5%N (-1))) true) /\
  heap (final r) !! 5%N
    = Some (mk_cell (Socket (mk_socket ConnectedState NoSocketError 9)) true) /\
  faults (final r) = [].
Proof. vm_compute. repeat split. Qed.

(** When the socket is still connecting after the first wait, the long wait
    follows and channel 5 is not tried, whatever the socket is like after
    it. *)
Lemma qt_serial_open_slow_channel_1 QT_VERSION T out context devaddr w :
  let s := second_addr w in
  let cs1 := calls w ++ [ConnectToService s devaddr 1; TimerStart 5000; LoopExec] in
  out <> NullLoc ->
  malloc_ok w = true ->
  state (T cs1) = ConnectingState ->
  calls (final (qt_serial_open QT_VERSION T out context devaddr w)) =
    cs1 ++ [TimerStart 15000; LoopExec].
Proof.
  intros s cs1 Hout Hm Hst.
  rewrite qt_serial_open_calls by done.
  unfold connect_log. fold s. cbv zeta. fold cs1.
  by rewrite decide_True.
Qed.

(** ** open: the device address *)

Lemma connect_error_status_not_invalidargs QT_VERSION err :
  connect_error_status QT_VERSION err <> DC_STATUS_INVALIDARGS.
Proof.
  unfold connect_error_status.
  destruct err; try discriminate.
  destruct (0x050400 <=? QT_VERSION); discriminate.
Qed.

Lemma connect_log_first T s devaddr cs :
  exists rest, connect_log T s devaddr cs = cs ++ ConnectToService s devaddr 1 :: rest.
Proof.
  unfold connect_log. cbv zeta.
  repeat match goal with |- context [decide ?P] => destruct (decide P) end;
    rewrite <- ?app_assoc; simpl; eauto.
Qed.

(** C4, as amended: [qt_serial_open] does not examine the device address.
    Whatever string is passed, well formed or not, a call with an out
    parameter that is not null never returns [DC_STATUS_INVALIDARGS], and
    once the handle is allocated the string goes unchanged into the
    connection attempt on channel 1. *)
Theorem qt_serial_open_address_unchecked (QT_VERSION : Z) (T : transport) (out : loc)
    (context : ptr) (devaddr : string) (w : world) :
  out <> NullLoc ->
  returned (qt_serial_open QT_VERSION T out context devaddr w)
    <> Some (DC_STATUS_INVALIDARGS : Z) /\
  (malloc_ok w = true ->
   exists rest,
     calls (final (qt_serial_open QT_VERSION T out context devaddr w))
       = calls w ++ ConnectToService (second_addr w) devaddr 1 :: rest).
Proof.
  intros Hout. split.
  - destruct (malloc_ok w) eqn:Hm.
    + rewrite qt_serial_open_run by done. cbv zeta.
      destruct (connect_failed _).
      * simpl. intros [= H]. by apply connect_error_status_not_invalidargs in H.
      * destruct (store_loc_then_success out (fresh_addr w)
                    (open_world true (heap w) (faults w) (tail (allocs w))
                       (fresh_addr w) (second_addr w) context
                       (T (connect_log T (second_addr w) devaddr (calls w)))
                       (connect_log T (second_addr w) devaddr (calls w))))
          as [_ [-> | ->]]; discriminate.
    + rewrite qt_serial_open_no_memory by done. discriminate.
  - intros Hm. rewrite qt_serial_open_calls by done. apply connect_log_first.
Qed.

Lemma qt_serial_open_address_unchecked_witness :
  let w := one_handle idle_socket in
  let r := qt_serial_open 0x050900 (refusing HostNotFoundError) (CellLoc 3%N) NULL
             "no address" w in
  returned r <> Some (DC_STATUS_INVALIDARGS : Z) /\
  (malloc_ok w = true ->
   exists rest, calls (final r) = calls w ++ ConnectToService 5%N "no address" 1 :: rest).
Proof.
  intros w r.
  apply (qt_serial_open_address_unchecked 0x050900 (refusing HostNotFoundError)
           (CellLoc 3%N) NULL "no address" w).
  discriminate.
Defined.

(** C4 as stated fails: for the empty string, and for a string that is no
    address, the call does not stop with [DC_STATUS_INVALIDARGS]: it goes
    on to the connection attempts, on channel 1 and then on channel 5, with
    the string as it is, and what it returns, whatever error the socket
    reports, is not [DC_STATUS_INVALIDARGS]. *)
Lemma qt_serial_open_malformed_address_not_invalidargs :
  let w := one_handle idle_socket in
  let open devaddr :=
    qt_serial_open 0x050900 (refusing HostNotFoundError) (CellLoc 3%N) NULL devaddr w in
  let attempts devaddr :=
    [ConnectToService 5%N devaddr 1; TimerStart 5000; LoopExec;
     ConnectToService 5%N devaddr 5; TimerStart 5000; LoopExec] in
  well_formed_address "" = false /\
  well_formed_address "no address" = false /\
  well_formed_address "00:11:22:33:44:55" = true /\
  calls (final (open "")) = attempts "" /\
  calls (final (open "no address")) = attempts "no address" /\
  returned (open "") <> Some (DC_STATUS_INVALIDARGS : Z) /\
  returned (open "no address") <> Some (DC_STATUS_INVALIDARGS : Z).
Proof. vm_compute. repeat split; discriminate. Qed.

(** ** open: the out parameter *)

Lemma qt_serial_open_frame QT_VERSION T out context devaddr w rc w' :
  qt_serial_open QT_VERSION T out context devaddr w = Ret rc w' ->
  rc <> (DC_STATUS_SUCCESS : Z) ->
  forall a c, heap w !! a = Some c -> heap w' !! a = Some c.
Proof.
  intros Hrun Hrc a c Ha.
  destruct (decide (out = NullLoc)) as [-> | Hout].
  { rewrite qt_serial_open_null_out in Hrun. by inversion Hrun; subst. }
  destruct (malloc_ok w) eqn:Hm.
  2:{ rewrite qt_serial_open_no_memory in Hrun by done. by inversion Hrun; subst. }
  rewrite qt_serial_open_run in Hrun by done. cbv zeta in Hrun.
  destruct (fresh_addr_spec w) as [_ Hsp].
  destruct (second_addr_spec w) as (_ & _ & Hs).
  destruct (connect_failed _).
  - assert (Hne1 : second_addr w <> a) by (intros E; rewrite E in Hs; congruence).
    assert (Hne2 : fresh_addr w <> a) by (intros E; rewrite E in Hsp; congruence).
    inversion Hrun; subst. simpl.
    by rewrite !lookup_insert_ne.
  - match type of Hrun with ?r = _ =>
      destruct (store_loc_then_success out (fresh_addr w)
                  (open_world true (heap w) (faults w) (tail (allocs w))
                     (fresh_addr w) (second_addr w) context
                     (T (connect_log T (second_addr w) devaddr (calls w)))
                     (connect_log T (second_addr w) devaddr (calls w))))
        as [_ [H | H]]; rewrite Hrun in H
    end; [discriminate H | injection H as H; contradiction].
Qed.

Lemma release_frame a w w' :
  release a w = Ret tt w' ->
  forall b, b <> a -> heap w' !! b = heap w !! b.
Proof.
  unfold release. intros H b Hb.
  destruct (heap w !! a) as [[o l] |]; [| discriminate].
  destruct l; simpl in H; inversion H; subst; simpl; [| done].
  by rewrite lookup_insert_ne.
Qed.

Lemma read_loc_frame out w w' p :
  (forall a c, heap w !! a = Some c -> heap w' !! a = Some c) ->
  read_loc out w = Some p -> read_loc out w' = Some p.
Proof.
  intros Hframe. destruct out as [| a | a]; simpl; [done | |].
  - destruct (heap w !! a) as [c |] eqn:E; [| done].
    by rewrite (Hframe _ _ E).
  - destruct (heap w !! a) as [c |] eqn:E; [| done].
    by rewrite (Hframe _ _ E).
Qed.

(** C9: when [qt_serial_open] or [dc_serial_qt_open] returns a status
    other than [DC_STATUS_SUCCESS], every object that existed before the
    call is as it was; in particular the pointer behind the out parameter
    is the one that was there before. *)
Theorem open_failure_leaves_out (QT_VERSION : Z) (T : transport)
    (dc_serial_init : ptr -> dc_serial_t) (out : loc) (context : ptr)
    (devaddr : string) (w : world) (rc : Z) (w' : world) :
  qt_serial_open QT_VERSION T out context devaddr w = Ret rc w' \/
  dc_serial_qt_open QT_VERSION T dc_serial_init out context devaddr w = Ret rc w' ->
  rc <> (DC_STATUS_SUCCESS : Z) ->
  (forall a c, heap w !! a = Some c -> heap w' !! a = Some c) /\
  (forall p, read_loc out w = Some p -> read_loc out w' = Some p).
Proof.
  intros Hrun Hrc.
  assert (Hframe : forall a c, heap w !! a = Some c -> heap w' !! a = Some c).
  { destruct Hrun as [Hrun | Hrun]; [by eapply qt_serial_open_frame |].
    intros a c Ha. unfold dc_serial_qt_open in Hrun.
    destruct (decide (out = NullLoc)) as [-> | Hout].
    { by inversion Hrun; subst. }
    destruct (malloc_ok w) eqn:Hm.
    2:{ rewrite (bind_Ret _ _ _ _ _ (malloc_fails _ _ Hm)) in Hrun.
        rewrite decide_True in Hrun by done. by inversion Hrun; subst. }
    destruct (fresh_addr_spec w) as [Hsd Hfresh].
    rewrite (bind_Ret _ _ _ _ _ (malloc_run _ _ Hm)) in Hrun.
    rewrite decide_False in Hrun by done.
    rewrite (bind_Ret _ _ _ _ _ (store_top _ _ _ _ _ _ _)) in Hrun.
    unfold bind at 1 in Hrun.
    destruct (qt_serial_open _ _ _ _ _ _) as [rc2 w2 | w2 | w2] eqn:Hopen;
      [| discriminate | discriminate].
    destruct (decide (rc2 ≠ (DC_STATUS_SUCCESS : Z))) as [Hrc2 | Hrc2].
    - unfold bind, free in Hrun. rewrite decide_False in Hrun by done.
      destruct (release (fresh_addr w) w2) as [[] w3 | w3 | w3] eqn:Hrel;
        [| discriminate | discriminate].
      inversion Hrun; subst.
      assert (Hne : a <> fresh_addr w) by congruence.
      rewrite (release_frame _ _ _ Hrel) by done.
      eapply qt_serial_open_frame; [exact Hopen | exact Hrc2 |].
      simpl. by rewrite lookup_insert_ne.
    - unfold bind in Hrun.
      destruct (set_type _ _ w2) as [[] w3 | |]; [| discriminate | discriminate].
      destruct (store_loc _ _ w3) as [[] w4 | |]; [| discriminate | discriminate].
      inversion Hrun; subst. done. }
  split; [exact Hframe |].
  intros p. by apply read_loc_frame.
Qed.

Lemma open_failure_leaves_out_witness :
  let w := one_handle idle_socket in
  let r := dc_serial_qt_open 0x050900 silent cleared_with_ops (CellLoc 3%N) NULL
             "00:11:22:33:44:55" w in
  (returned r = Some (-1) /\ read_loc (CellLoc 3%N) w = Some NULL) /\
  (forall a c, heap w !! a = Some c -> heap (final r) !! a = Some c) /\
  (forall p, read_loc (CellLoc 3%N) w = Some p -> read_loc (CellLoc 3%N) (final r) = Some p).
Proof.
  intros w r. split; [split; reflexivity |].
  apply (open_failure_leaves_out 0x050900 silent cleared_with_ops (CellLoc 3%N) NULL
           "00:11:22:33:44:55" w (-1) (final r)).
  - right. vm_compute. reflexivity.
  - discriminate.
Defined.

(** * Further properties *)

(** ** open: when it succeeds *)

Lemma connect_error_status_not_success QT_VERSION err :
  connect_error_status QT_VERSION err <> DC_STATUS_SUCCESS.
Proof.
  unfold connect_error_status.
  destruct err; try discriminate.
  destruct (0x050400 <=? QT_VERSION); discriminate.
Qed.

Lemma connect_failed_false q :
  connect_failed q = false <-> socketDescriptor q <> -1 /\ state q = ConnectedState.
Proof.
  unfold connect_failed. rewrite bool_decide_eq_false.
  destruct (decide (state q = ConnectedState)); tauto.
Qed.

(** A call that ends connected, with a pointer variable of the caller as
    out parameter. *)
Lemma qt_serial_open_connected QT_VERSION T a p0 context devaddr w :
  heap w !! a = Some (mk_cell (Pointer p0) true) ->
  malloc_ok w = true ->
  connect_failed (T (connect_log T (second_addr w) devaddr (calls w))) = false ->
  qt_serial_open QT_VERSION T (CellLoc a) context devaddr w =
    Ret (DC_STATUS_SUCCESS : Z)
        (opened a (heap w) (faults w) (tail (allocs w)) (fresh_addr w) (second_addr w)
           context (T (connect_log T (second_addr w) devaddr (calls w)))
           (connect_log T (second_addr w) devaddr (calls w))).
Proof.
  intros Ha Hm Hf.
  destruct (fresh_addr_spec w) as [_ Hsp].
  destruct (second_addr_spec w) as (_ & _ & Hs).
  assert (Hne1 : second_addr w <> a) by (intros E; rewrite E in Hs; congruence).
  assert (Hne2 : fresh_addr w <> a) by (intros E; rewrite E in Hsp; congruence).
  rewrite qt_serial_open_run by done. cbv zeta. rewrite Hf.
  unfold store_loc.
  set (W := open_world _ _ _ _ _ _ _ _ _).
  assert (Hl : heap W !! a = Some (mk_cell (Pointer p0) true)).
  { subst W. simpl. by rewrite !lookup_insert_ne. }
  rewrite bind_assoc.
  rewrite (bind_Ret _ _ _ _ _ (load_live _ _ _ Hl)). cbv beta iota.
  rewrite (bind_Ret _ _ _ _ _ (store_live _ _ _ _ Hl)).
  reflexivity.
Qed.

(** X1: given a pointer variable as out parameter and a handle that could
    be allocated, [qt_serial_open] succeeds exactly when, after the waits,
    the socket is in the connected state with a descriptor other than -1;
    then the variable holds the new handle, whose context is the one
    passed, whose timeout is -1 and whose socket is the connected one, and
    no memory fault occurred. *)
Theorem qt_serial_open_succeeds_iff_connected (QT_VERSION : Z) (T : transport)
    (a p0 context : ptr) (devaddr : string) (w : world) :
  let sp := fresh_addr w in
  let s := second_addr w in
  let q := T (connect_log T s devaddr (calls w)) in
  let r := qt_serial_open QT_VERSION T (CellLoc a) context devaddr w in
  heap w !! a = Some (mk_cell (Pointer p0) true) ->
  malloc_ok w = true ->
  (returned r = Some (DC_STATUS_SUCCESS : Z) <->
   socketDescriptor q <> -1 /\ state q = ConnectedState) /\
  (returned r = Some (DC_STATUS_SUCCESS : Z) ->
   read_loc (CellLoc a) (final r) = Some sp /\
   heap (final r) !! sp = Some (mk_cell (Serial (mk_serial_t context s (-1))) true) /\
   heap (final r) !! s = Some (mk_cell (Socket q) true) /\
   faults (final r) = faults w).
Proof.
  intros sp s q r Ha Hm.
  destruct (fresh_addr_spec w) as [_ Hsp].
  destruct (second_addr_spec w) as (_ & Hne & Hs).
  assert (Hne1 : a <> s) by (intros E; subst s; rewrite <- E in Hs; congruence).
  assert (Hne2 : a <> sp) by (intros E; subst sp; rewrite <- E in Hsp; congruence).
  rewrite <- connect_failed_false. subst r.
  destruct (connect_failed q) eqn:Hf.
  - rewrite qt_serial_open_run by done. cbv zeta. fold s q. rewrite Hf. simpl.
    split; [split; [| discriminate] |];
      intros [= H]; by apply connect_error_status_not_success in H.
  - rewrite (qt_serial_open_connected _ _ _ p0) by done. fold s sp q.
    split; [done |]. intros _. simpl.
    rewrite lookup_insert_eq.
    rewrite !(lookup_insert_ne _ a) by done.
    rewrite lookup_insert_eq.
    rewrite (lookup_insert_ne _ s sp) by done.
    by rewrite lookup_insert_eq.
Qed.

Lemma qt_serial_open_succeeds_iff_connected_witness :
  let w := one_handle idle_socket in
  let r := qt_serial_open 0x050900 accepts_channel_5 (CellLoc 3%N) NULL "00:11:22:33:44:55" w in
  (returned r = Some (DC_STATUS_SUCCESS : Z) <->
   socketDescriptor (mk_socket ConnectedState NoSocketError 9) <> -1 /\
   state (mk_socket ConnectedState NoSocketError 9) = ConnectedState) /\
  (returned r = Some (DC_STATUS_SUCCESS : Z) ->
   read_loc (CellLoc 3%N) (final r) = Some 4%N /\
   heap (final r) !! 4%N = Some (mk_cell (Serial (mk_serial_t NULL 5%N (-1))) true) /\
   heap (final r) !! 5%N
     = Some (mk_cell (Socket (mk_socket ConnectedState NoSocketError 9)) true) /\
   faults (final r) = faults w).
Proof.
  intros w r.
  apply (qt_serial_open_succeeds_iff_connected 0x050900 accepts_channel_5 3%N NULL NULL
           "00:11:22:33:44:55" w); reflexivity.
Defined.

(** ** open: the classified failures *)

(** X2: on every transport, when the connection attempt of
    [qt_serial_open] fails, the handle is freed and the socket's last error
    is then read through it, which is two reads of released storage; with
    the error those reads yield where the released handle still holds the
    socket pointer, host not found or service not found makes the call
    return [DC_STATUS_NODEVICE], unsupported protocol
    [DC_STATUS_PROTOCOL], a network error [DC_STATUS_IO] and, when built
    with Qt 5.4 or later, an operation error [DC_STATUS_UNSUPPORTED]. *)
Theorem qt_serial_open_failure_status (QT_VERSION : Z) (T : transport) (out : loc)
    (context : ptr) (devaddr : string) (w : world) :
  let sp := fresh_addr w in
  let q := T (connect_log T (second_addr w) devaddr (calls w)) in
  let r := qt_serial_open QT_VERSION T out context devaddr w in
  out <> NullLoc ->
  malloc_ok w = true ->
  connect_failed q = true ->
  faults (final r) = faults w ++ [UseAfterFree sp; UseAfterFree sp] /\
  (error q = HostNotFoundError \/ error q = ServiceNotFoundError ->
   returned r = Some (DC_STATUS_NODEVICE : Z)) /\
  (error q = UnsupportedProtocolError -> returned r = Some (DC_STATUS_PROTOCOL : Z)) /\
  (error q = NetworkError -> returned r = Some (DC_STATUS_IO : Z)) /\
  (error q = OperationError -> 0x050400 <= QT_VERSION ->
   returned r = Some (DC_STATUS_UNSUPPORTED : Z)).
Proof.
  intros sp q r Hout Hm Hf. subst r.
  rewrite qt_serial_open_run by done. cbv zeta. fold q sp. rewrite Hf.
  cbn [returned final]. split; [reflexivity |].
  repeat split.
  - by intros [-> | ->].
  - by intros ->.
  - by intros ->.
  - intros -> Hv. unfold connect_error_status.
    destruct (Z.leb_spec 0x050400 QT_VERSION); [reflexivity | lia].
Qed.

Lemma qt_serial_open_failure_status_witness :
  let w := one_handle idle_socket in
  let r := qt_serial_open 0x050900 (refusing ServiceNotFoundError) (CellLoc 3%N) NULL
             "00:11:22:33:44:55" w in
  faults (final r) = [UseAfterFree 4%N; UseAfterFree 4%N] /\
  returned r = Some (DC_STATUS_NODEVICE : Z).
Proof.
  intros w r.
  destruct (qt_serial_open_failure_status 0x050900 (refusing ServiceNotFoundError)
              (CellLoc 3%N) NULL "00:11:22:33:44:55" w
              ltac:(discriminate) eq_refl eq_refl) as (Hfaults & Hnodev & _).
  split; [exact Hfaults | apply Hnodev; right; reflexivity].
Defined.

(** ** open: the waits *)

(** X3 is [qt_serial_open_slow_channel_1]: on the transport on which
    nothing answers the calls are the attempt on channel 1 and its two
    waits. *)
Lemma qt_serial_open_slow_channel_1_witness :
  let w := one_handle idle_socket in
  state (silent [ConnectToService 5%N "00:11:22:33:44:55" 1; TimerStart 5000; LoopExec])
    = ConnectingState /\
  calls (final (qt_serial_open 0x050900 silent (CellLoc 3%N) NULL "00:11:22:33:44:55" w))
    = [ConnectToService 5%N "00:11:22:33:44:55" 1; TimerStart 5000; LoopExec;
       TimerStart 15000; LoopExec].
Proof.
  intros w. split; [reflexivity |].
  apply (qt_serial_open_slow_channel_1 0x050900 silent (CellLoc 3%N) NULL
           "00:11:22:33:44:55" w); [discriminate | reflexivity | reflexivity].
Defined.

(** X4: when the socket is neither connecting nor unconnected after the
    first wait (it is connected, or for instance still looking the service
    up), [qt_serial_open] neither waits again nor tries channel 5: its only
    calls are the attempt on channel 1 and the wait of 5000 ms. *)
Theorem qt_serial_open_settled_after_first_wait (QT_VERSION : Z) (T : transport)
    (out : loc) (context : ptr) (devaddr : string) (w : world) :
  let s := second_addr w in
  let cs1 := calls w ++ [ConnectToService s devaddr 1; TimerStart 5000; LoopExec] in
  out <> NullLoc ->
  malloc_ok w = true ->
  state (T cs1) <> ConnectingState ->
  state (T cs1) <> UnconnectedState ->
  calls (final (qt_serial_open QT_VERSION T out context devaddr w)) = cs1.
Proof.
  intros s cs1 Hout Hm H1 H2.
  rewrite qt_serial_open_calls by done.
  unfold connect_log. fold s. cbv zeta. fold cs1.
  by rewrite !decide_False.
Qed.

(** A device whose service lookup never ends. *)
Lemma qt_serial_open_settled_after_first_wait_witness :
  let w := one_handle idle_socket in
  let T : transport := fun _ => mk_socket ServiceLookupState NoSocketError (-1) in
  calls (final (qt_serial_open 0x050900 T (CellLoc 3%N) NULL "00:11:22:33:44:55" w))
    = [ConnectToService 5%N "00:11:22:33:44:55" 1; TimerStart 5000; LoopExec].
Proof.
  intros w T.
  apply (qt_serial_open_settled_after_first_wait 0x050900 T (CellLoc 3%N) NULL
           "00:11:22:33:44:55" w); [discriminate | reflexivity | discriminate | discriminate].
Defined.

Lemma waited_app l1 l2 : waited (l1 ++ l2) = waited l1 + waited l2.
Proof.
  induction l1 as [| c l1 IH]; simpl; [reflexivity |].
  destruct c; simpl; lia.
Qed.

Lemma channels_app l1 l2 : channels (l1 ++ l2) = channels l1 ++ channels l2.
Proof.
  induction l1 as [| c l1 IH]; simpl; [reflexivity |].
  destruct c; simpl; by rewrite ?IH.
Qed.

(** X5: whatever the transport does, one call of [qt_serial_open] makes no
    connection attempt at all, or one on channel 1, or one on channel 1
    followed by one on channel 5, and the timers it starts add up to at
    most 40000 ms. *)
Theorem qt_serial_open_bounded (QT_VERSION : Z) (T : transport) (out : loc)
    (context : ptr) (devaddr : string) (w : world) :
  exists l,
    calls (final (qt_serial_open QT_VERSION T out context devaddr w)) = calls w ++ l /\
    (channels l = [] \/ channels l = [1] \/ channels l = [1; 5]) /\
    0 <= waited l <= 40000.
Proof.
  destruct (decide (out = NullLoc)) as [-> | Hout].
  { exists []. rewrite qt_serial_open_null_out, app_nil_r. simpl. split; [done |].
    split; [by left | lia]. }
  destruct (malloc_ok w) eqn:Hm.
  2:{ exists []. rewrite qt_serial_open_no_memory by done. rewrite app_nil_r. simpl.
      split; [done |]. split; [by left | lia]. }
  rewrite qt_serial_open_calls by done.
  unfold connect_log. cbv zeta.
  repeat match goal with |- context [decide ?P] => destruct (decide P) end;
    rewrite <- ?app_assoc; simpl; eexists; (split; [reflexivity |]); simpl;
    (split; [tauto | lia]).
Qed.

(** X6 is [qt_serial_open_failed_world]: after a refusal with host not
    found the handle at address 4 is freed and was read twice since, and
    the socket at address 5 is still allocated. *)
Lemma qt_serial_open_failed_world_witness :
  let w := one_handle idle_socket in
  let w' := final (qt_serial_open 0x050900 (refusing HostNotFoundError) (CellLoc 3%N) NULL
                     "00:11:22:33:44:55" w) in
  faults w' = [UseAfterFree 4%N; UseAfterFree 4%N] /\
  heap w' !! 4%N = Some (mk_cell (Serial (mk_serial_t NULL 5%N (-1))) false) /\
  heap w' !! 5%N
    = Some (mk_cell (Socket (mk_socket UnconnectedState HostNotFoundError (-1))) true).
Proof.
  intros w w'.
  apply (qt_serial_open_failed_world 0x050900 (refusing HostNotFoundError) (CellLoc 3%N)
           NULL "00:11:22:33:44:55" w); [discriminate | reflexivity | reflexivity].
Defined.

(** ** open, then close *)

(** X7: closing the handle that a successful [qt_serial_open] stored
    through the out parameter succeeds without a memory fault: the
    socket is asked to shut down, socket and handle are released, and every
    object that existed before the two calls, other than the out variable,
    is as it was. *)
Theorem qt_serial_open_then_close (QT_VERSION : Z) (T : transport) (a p0 context : ptr)
    (devaddr : string) (w : world) :
  let sp := fresh_addr w in
  let s := second_addr w in
  let L := connect_log T s devaddr (calls w) in
  heap w !! a = Some (mk_cell (Pointer p0) true) ->
  malloc_ok w = true ->
  connect_failed (T L) = false ->
  exists w1 w2,
    qt_serial_open QT_VERSION T (CellLoc a) context devaddr w
      = Ret (DC_STATUS_SUCCESS : Z) w1 /\
    read_loc (CellLoc a) w1 = Some sp /\
    qt_serial_close sp w1 = Ret (DC_STATUS_SUCCESS : Z) w2 /\
    faults w2 = faults w /\
    calls w2 = L ++ [SocketClose s] /\
    heap w2 !! sp = Some (mk_cell (Serial (mk_serial_t context s (-1))) false) /\
    heap w2 !! s = Some (mk_cell (Socket (T L)) false) /\
    (forall b c, b <> a -> heap w !! b = Some c -> heap w2 !! b = Some c).
Proof.
  intros sp s L Ha Hm Hf.
  destruct (fresh_addr_spec w) as [Hspn Hsp].
  destruct (second_addr_spec w) as (Hsn & Hne & Hs).
  assert (Hne1 : a <> s) by (intros E; subst s; rewrite <- E in Hs; congruence).
  assert (Hne2 : a <> sp) by (intros E; subst sp; rewrite <- E in Hsp; congruence).
  set (w1 := opened a (heap w) (faults w) (tail (allocs w)) sp s context (T L) L).
  assert (Hl1 : heap w1 !! sp = Some (mk_cell (Serial (mk_serial_t context s (-1))) true)).
  { subst w1. simpl. rewrite !(lookup_insert_ne _ a) by done.
    rewrite (lookup_insert_ne _ s sp) by done. apply lookup_insert_eq. }
  assert (Hl2 : heap w1 !! s = Some (mk_cell (Socket (T L)) true)).
  { subst w1. simpl. rewrite !(lookup_insert_ne _ a) by done. apply lookup_insert_eq. }
  exists w1, (closed sp (mk_serial_t context s (-1)) (T L) w1).
  split; [by apply (qt_serial_open_connected _ _ _ p0) |].
  split; [subst w1; simpl; by rewrite lookup_insert_eq |].
  split; [by apply qt_serial_close_live |].
  split; [reflexivity |]. split; [reflexivity |].
  split; [simpl; apply lookup_insert_eq |].
  split; [simpl; rewrite (lookup_insert_ne _ sp s) by done; apply lookup_insert_eq |].
  intros b c Hb Hc.
  assert (b <> sp) by (intros E; subst sp; rewrite E in Hc; congruence).
  assert (b <> s) by (intros E; subst s; rewrite E in Hc; congruence).
  simpl. by rewrite !lookup_insert_ne.
Qed.

Lemma qt_serial_open_then_close_witness :
  let w := one_handle idle_socket in
  exists w1 w2,
    qt_serial_open 0x050900 accepts_channel_5 (CellLoc 3%N) NULL "00:11:22:33:44:55" w
      = Ret (DC_STATUS_SUCCESS : Z) w1 /\
    read_loc (CellLoc 3%N) w1 = Some 4%N /\
    qt_serial_close 4%N w1 = Ret (DC_STATUS_SUCCESS : Z) w2 /\
    faults w2 = [] /\
    calls w2 =
      [ConnectToService 5%N "00:11:22:33:44:55" 1; TimerStart 5000; LoopExec;
       ConnectToService 5%N "00:11:22:33:44:55" 5; TimerStart 5000; LoopExec;
       SocketClose 5%N] /\
    heap w2 !! 4%N = Some (mk_cell (Serial (mk_serial_t NULL 5%N (-1))) false) /\
    heap w2 !! 5%N
      = Some (mk_cell (Socket (mk_socket ConnectedState NoSocketError 9)) false) /\
    (forall b c, b <> 3%N -> heap w !! b = Some c -> heap w2 !! b = Some c).
Proof.
  intros w.
  apply (qt_serial_open_then_close 0x050900 accepts_channel_5 3%N NULL NULL
           "00:11:22:33:44:55" w); reflexivity.
Defined.

(** ** read: no short count *)

Lemma to_uint_range z : 0 <= to_uint z <= UINT_MAX.
Proof.
  unfold to_uint, UINT_MAX.
  pose proof (Z.mod_pos_bound z (2 ^ 32) ltac:(lia)). lia.
Qed.

(** The read loop only returns -1 or, once the count has reached [size],
    the count as an [int]. *)
Lemma read_loop_returns s msecs size rx script :
  forall nbytes pos data w rc data' w',
  0 <= nbytes <= UINT_MAX ->
  read_loop s msecs size rx script nbytes pos data w = Ret (rc, data') w' ->
  rc = -1 \/ exists n, 0 <= n /\ size <= n <= UINT_MAX /\ rc = to_int n.
Proof.
  induction script as [| t script IH]; intros nbytes pos data w rc data' w' Hn Hrun;
    simpl in Hrun; destruct (Z.ltb_spec nbytes size).
  - discriminate.
  - injection Hrun as <- _ _. right. exists nbytes. repeat split; lia.
  - unfold bind at 1 in Hrun.
    destruct (on_socket s (WaitForReadyRead s msecs) w) as [[] w1 | |]; try discriminate.
    unfold bind at 1 in Hrun.
    destruct (on_socket s (SocketRead s nbytes (to_uint (size - nbytes))) w1)
      as [[] w2 | |]; try discriminate.
    destruct (to_int (transferred t) <? 0).
    + destruct (is_transient (errno t)).
      * by eapply IH.
      * injection Hrun as <- _ _. by left.
    + unfold bind at 1 in Hrun.
      destruct ((if to_int (transferred t) =? 0
                 then on_socket s (AwaitReadyRead s) else ret ()) w2)
        as [[] w3 | |]; try discriminate.
      eapply IH; [apply to_uint_range | exact Hrun].
  - injection Hrun as <- _ _. right. exists nbytes. repeat split; lia.
Qed.

(** X8: [qt_serial_read] never reports a short read.  Whatever the handle
    and whatever the transport yields, a value it returns that is not
    negative is at least [size]. *)
Theorem qt_serial_read_never_short (device : ptr) (data rx : buffer) (size : Z)
    (script : list transfer) (w : world) (rc : Z) (data' : buffer) (w' : world) :
  qt_serial_read device data size rx script w = Ret (rc, data') w' ->
  0 <= rc ->
  size <= rc.
Proof.
  unfold qt_serial_read. intros Hrun Hrc.
  destruct (decide (device = NULL)) as [Hnull | Hnn].
  { injection Hrun as <- _ _. simpl in Hrc. lia. }
  unfold bind in Hrun.
  destruct (load_serial device w) as [d w1 | |]; try discriminate.
  destruct (decide (socket d = NULL)) as [Hsnull | Hsnn].
  { injection Hrun as <- _ _. simpl in Hrc. lia. }
  apply read_loop_returns in Hrun; [| unfold UINT_MAX; lia].
  destruct Hrun as [-> | (n & Hn0 & Hn & ->)]; [lia |].
  unfold to_int, UINT_MAX in *.
  destruct (Z.le_gt_cases (2 ^ 31) n) as [Hbig | Hsmall].
  - replace ((n + 2 ^ 31) mod 2 ^ 32) with (n + 2 ^ 31 - 2 ^ 32) in Hrc; [lia |].
    apply Z.mod_unique with 1; lia.
  - rewrite Z.mod_small by lia. lia.
Qed.

Lemma qt_serial_read_never_short_witness :
  let w := one_handle connected_socket in
  let script := [mk_transfer 2 ENONE; mk_transfer 0 ENONE; mk_transfer 4 ENONE] in
  fst <$> returned (qt_serial_read 1%N blank 6 counting script w) = Some 6 /\ 6 <= 6.
Proof.
  intros w script. split; [reflexivity |].
  destruct (qt_serial_read 1%N blank 6 counting script w) as [[rc data'] w' | |] eqn:E;
    [| discriminate E | discriminate E].
  assert (Hrc : rc = 6) by (vm_compute in E; congruence).
  rewrite <- Hrc at 2.
  apply (qt_serial_read_never_short 1%N blank counting 6 script w rc data' w' E).
  rewrite Hrc. discriminate.
Defined.

(** X9 is [qt_serial_read_pending]: two of six bytes, a read of no bytes
    and an interrupted call, and the call has not returned. *)
Lemma qt_serial_read_pending_witness :
  let w := one_handle connected_socket in
  let script := [mk_transfer 2 ENONE; mk_transfer 0 ENONE; mk_transfer (-1) EINTR] in
  total script < 6 /\
  returned (qt_serial_read 1%N blank 6 counting script w) = None.
Proof.
  intros w script. split; [reflexivity |].
  apply (qt_serial_read_pending 1%N (mk_serial_t NULL 2%N (-1)) connected_socket
           blank counting 6 script w);
    first [discriminate | reflexivity | (vm_compute; split; discriminate)].
Defined.

(** ** write: a complete write *)

(** X10: on a handle with a live socket, when the calls of the socket's
    write fail transiently or accept some bytes, adding up to less than
    [size], and the next call accepts the missing bytes, [qt_serial_write]
    returns [size] (at most [INT_MAX]); per outcome it waits for the bytes
    written and writes from the offset reached so far, and it makes no
    call after the last byte was accepted. *)
Theorem qt_serial_write_completes (device : ptr) (d : serial_t) (q : QBluetoothSocket)
    (data : buffer) (size : Z) (pre : list transfer) (t : transfer)
    (post : list transfer) (w : world) :
  device <> NULL ->
  heap w !! device = Some (mk_cell (Serial d) true) ->
  socket d <> NULL ->
  heap w !! socket d = Some (mk_cell (Socket q) true) ->
  0 <= size <= INT_MAX ->
  forallb write_goes_on pre = true ->
  total pre < size ->
  transferred t = size - total pre ->
  qt_serial_write device data size (pre ++ t :: post) w =
    Ret size
        (add_calls (write_trace (socket d) (to_int (timeout d)) size 0 (pre ++ [t])) w).
Proof.
  intros Hnn Hd Hsn Hs Hsize Hpre Htot Ht.
  pose proof (total_nonneg pre) as Hp.
  assert (Hrange : 0 <= size <= UINT_MAX) by (unfold INT_MAX, UINT_MAX in *; lia).
  assert (Hgo : write_goes_on t = true).
  { unfold write_goes_on, delivers. apply orb_true_iff. right.
    rewrite !andb_true_iff, !Z.leb_le, Z.ltb_lt. lia. }
  assert (Hg : gained t = size - total pre) by (unfold gained; lia).
  rewrite (qt_serial_write_enter _ d) by done.
  rewrite (write_loop_prefix _ q) by (try done; lia).
  rewrite !Z.add_0_l.
  rewrite (write_loop_step _ q) by (try done; simpl; lia).
  rewrite add_calls_app, write_trace_app, Z.add_0_l.
  rewrite Hg.
  replace (total pre + (size - total pre)) with size by lia.
  destruct post; simpl write_loop; rewrite Z.ltb_irrefl; unfold ret;
    rewrite to_int_id by (unfold INT_MAX in *; lia); reflexivity.
Qed.

Lemma qt_serial_write_completes_witness :
  let w := one_handle connected_socket in
  let pre := [mk_transfer 2 ENONE; mk_transfer (-1) EINTR; mk_transfer 3 ENONE] in
  let t := mk_transfer 3 ENONE in
  let post := [mk_transfer 0 ENONE] in
  (forallb write_goes_on pre = true /\ total pre < 8) /\
  qt_serial_write 1%N blank 8 (pre ++ t :: post) w =
    Ret 8
        (add_calls [WaitForBytesWritten 2%N (-1); SocketWrite 2%N 0 8;
                    WaitForBytesWritten 2%N (-1); SocketWrite 2%N 2 6;
                    WaitForBytesWritten 2%N (-1); SocketWrite 2%N 2 6;
                    WaitForBytesWritten 2%N (-1); SocketWrite 2%N 5 3] w).
Proof.
  intros w pre t post. split; [split; reflexivity |].
  apply (qt_serial_write_completes 1%N (mk_serial_t NULL 2%N (-1)) connected_socket
           blank 8 pre t post w);
    first [discriminate | reflexivity | (vm_compute; split; discriminate)].
Defined.

(** ** read and write: the handle stays as it is *)

Lemma read_loop_world s q msecs size rx script :
  forall nbytes pos data w,
  heap w !! s = Some (mk_cell (Socket q) true) ->
  exists l, final (read_loop s msecs size rx script nbytes pos data w) = add_calls l w.
Proof.
  induction script as [| t script IH]; intros nbytes pos data w Hs; simpl;
    destruct (nbytes <? size); try (exists []; by rewrite add_calls_nil).
  unfold bind at 1. rewrite (on_socket_live _ q) by exact Hs.
  unfold bind at 1. rewrite (on_socket_live _ q) by exact Hs.
  rewrite add_calls_app.
  set (w2 := add_calls _ w).
  assert (Hs2 : heap w2 !! s = Some (mk_cell (Socket q) true)) by exact Hs.
  destruct (to_int (transferred t) <? 0).
  - destruct (is_transient (errno t)).
    + destruct (IH nbytes (pos + 0 `max` transferred t)
                  (deliver rx pos (transferred t) nbytes data) w2 Hs2) as [l Hl].
      rewrite Hl. subst w2. rewrite add_calls_app. eauto.
    + subst w2. simpl. eauto.
  - unfold bind at 1.
    destruct (to_int (transferred t) =? 0).
    + rewrite (on_socket_live _ q) by exact Hs2.
      destruct (IH (to_uint (nbytes + to_int (transferred t)))
                  (pos + 0 `max` transferred t)
                  (deliver rx pos (transferred t) nbytes data)
                  (add_calls [AwaitReadyRead s] w2) Hs2) as [l Hl].
      rewrite Hl. subst w2. rewrite !add_calls_app. eauto.
    + unfold ret at 1.
      destruct (IH (to_uint (nbytes + to_int (transferred t)))
                  (pos + 0 `max` transferred t)
                  (deliver rx pos (transferred t) nbytes data) w2 Hs2) as [l Hl].
      rewrite Hl. subst w2. rewrite add_calls_app. eauto.
Qed.

Lemma write_loop_world s q msecs size script :
  forall nbytes w,
  heap w !! s = Some (mk_cell (Socket q) true) ->
  exists l, final (write_loop s msecs size script nbytes w) = add_calls l w.
Proof.
  induction script as [| t script IH]; intros nbytes w Hs; simpl;
    destruct (nbytes <? size); try (exists []; by rewrite add_calls_nil).
  unfold bind at 1. rewrite (on_socket_live _ q) by exact Hs.
  unfold bind at 1. rewrite (on_socket_live _ q) by exact Hs.
  rewrite add_calls_app.
  set (w2 := add_calls _ w).
  assert (Hs2 : heap w2 !! s = Some (mk_cell (Socket q) true)) by exact Hs.
  destruct (to_int (transferred t) <? 0).
  - destruct (is_transient (errno t)).
    + destruct (IH nbytes w2 Hs2) as [l Hl].
      rewrite Hl. subst w2. rewrite add_calls_app. eauto.
    + subst w2. simpl. eauto.
  - destruct (to_int (transferred t) =? 0).
    + subst w2. simpl. eauto.
    + destruct (IH (to_uint (nbytes + to_int (transferred t))) w2 Hs2) as [l Hl].
      rewrite Hl. subst w2. rewrite add_calls_app. eauto.
Qed.

(** X11: whatever the transport yields and however the call ends (a count,
    -1, or still waiting), [qt_serial_read] and [qt_serial_write] on a live
    handle with a live socket only add calls to the log: the handle, the
    socket and every other object are as before and no memory fault is
    recorded, so the handle can be used and closed afterwards. *)
Theorem qt_serial_read_write_keep_heap (device : ptr) (d : serial_t)
    (q : QBluetoothSocket) (data rx : buffer) (size : Z) (script : list transfer)
    (w : world) :
  device <> NULL ->
  heap w !! device = Some (mk_cell (Serial d) true) ->
  socket d <> NULL ->
  heap w !! socket d = Some (mk_cell (Socket q) true) ->
  (exists l, final (qt_serial_read device data size rx script w) = add_calls l w) /\
  (exists l, final (qt_serial_write device data size script w) = add_calls l w).
Proof.
  intros Hnn Hd Hsn Hs. split.
  - rewrite (qt_serial_read_enter _ d) by done. by apply (read_loop_world _ q).
  - rewrite (qt_serial_write_enter _ d) by done. by apply (write_loop_world _ q).
Qed.

Lemma qt_serial_read_write_keep_heap_witness :
  let w := one_handle connected_socket in
  let script := [mk_transfer 3 ENONE; mk_transfer (-1) EPIPE] in
  (exists l, final (qt_serial_read 1%N blank 8 counting script w) = add_calls l w) /\
  (exists l, final (qt_serial_write 1%N blank 8 script w) = add_calls l w).
Proof.
  intros w script.
  apply (qt_serial_read_write_keep_heap 1%N (mk_serial_t NULL 2%N (-1)) connected_socket
           blank counting 8 script w);
    [discriminate | reflexivity | discriminate | reflexivity].
Defined.

(** ** Guards and pending byte counts *)

(** X12: [qt_serial_read] and [qt_serial_write] given a null handle, or a
    handle whose socket pointer is null, return [DC_STATUS_INVALIDARGS]
    whatever the size, touch neither the buffer nor the world and make no
    call on a socket. *)
Theorem qt_serial_read_write_guard (device : ptr) (d : serial_t) (data rx : buffer)
    (size : Z) (script : list transfer) (w : world) :
  device = NULL \/
  (heap w !! device = Some (mk_cell (Serial d) true) /\ socket d = NULL) ->
  qt_serial_read device data size rx script w
    = Ret (DC_STATUS_INVALIDARGS : Z, data) w /\
  qt_serial_write device data size script w = Ret (DC_STATUS_INVALIDARGS : Z) w.
Proof.
  unfold qt_serial_read, qt_serial_write.
  intros [-> | [Hd Hs]]; [by rewrite !decide_True |].
  destruct (decide (device = NULL)) as [Hnull | Hnn]; [done |].
  unfold bind. rewrite (load_serial_live _ _ _ Hd).
  by rewrite !decide_True.
Qed.

(** A world with a handle that holds no socket. *)
Lemma qt_serial_read_write_guard_witness :
  let w := mk_world (<[1%N := mk_cell (Serial (mk_serial_t NULL NULL (-1))) true]> ∅)
             [] [] [] in
  let script := [mk_transfer 4 ENONE] in
  qt_serial_read 1%N blank 4 counting script w = Ret (-2, blank) w /\
  qt_serial_write 1%N blank 4 script w = Ret (-2) w.
Proof.
  intros w script.
  apply (qt_serial_read_write_guard 1%N (mk_serial_t NULL NULL (-1)) blank counting 4
           script w).
  right. split; reflexivity.
Defined.

(** X13: [qt_serial_get_received] and [qt_serial_get_transmitted] change
    nothing.  For a handle with a live socket they return the socket's
    count of bytes available, respectively of bytes to write, when it fits
    an [int]; for a null handle or a handle whose socket pointer is null
    they return [DC_STATUS_INVALIDARGS], which no count equals. *)
Theorem qt_serial_get_counts (device : ptr) (d : serial_t) (q : QBluetoothSocket)
    (n : Z) (w : world) :
  device = NULL \/
  (heap w !! device = Some (mk_cell (Serial d) true) /\
   (socket d = NULL \/ heap w !! socket d = Some (mk_cell (Socket q) true))) ->
  0 <= n <= INT_MAX ->
  let expected :=
    if bool_decide (device = NULL \/ socket d = NULL)
    then (DC_STATUS_INVALIDARGS : Z) else n in
  qt_serial_get_received device n w = Ret expected w /\
  qt_serial_get_transmitted device n w = Ret expected w /\
  n <> (DC_STATUS_INVALIDARGS : Z).
Proof.
  intros H Hn expected. subst expected.
  unfold qt_serial_get_received, qt_serial_get_transmitted.
  split; [| split]; [| | simpl; lia].
  all: destruct (decide (device = NULL)) as [Hnull | Hnn];
    [by rewrite bool_decide_eq_true_2 by (by left) |];
    destruct H as [? | [Hd Hs]]; [done |];
    unfold bind at 1; rewrite (load_serial_live _ _ _ Hd);
    destruct (decide (socket d = NULL)) as [Hsn | Hsn];
    [by rewrite bool_decide_eq_true_2 by (by right) |];
    destruct Hs as [? | Hs]; [done |];
    rewrite bool_decide_eq_false_2 by tauto;
    unfold bind; rewrite (load_socket_live _ _ _ Hs); unfold ret;
    rewrite to_int_id by (unfold INT_MAX in *; lia); reflexivity.
Qed.

Lemma qt_serial_get_counts_witness :
  let w := one_handle connected_socket in
  qt_serial_get_received 1%N 12 w = Ret 12 w /\
  qt_serial_get_transmitted 1%N 12 w = Ret 12 w /\
  12 <> (DC_STATUS_INVALIDARGS : Z).
Proof.
  intros w.
  apply (qt_serial_get_counts 1%N (mk_serial_t NULL 2%N (-1)) connected_socket 12 w).
  - right. split; [reflexivity | right; reflexivity].
  - vm_compute. split; discriminate.
Defined.

(** ** dc_serial_qt_open *)

Lemma load_dc_serial_live a d w :
  heap w !! a = Some (mk_cell (DcSerial d) true) -> load_dc_serial a w = Ret d w.
Proof. intros H. unfold load_dc_serial, bind. by rewrite (load_live _ _ _ H). Qed.

(** Up to the call of [qt_serial_open] (source lines 227-241). *)
Lemma dc_serial_qt_open_enter QT_VERSION T init out context devaddr w :
  out <> NullLoc ->
  malloc_ok w = true ->
  dc_serial_qt_open QT_VERSION T init out context devaddr w =
    (rc <- qt_serial_open QT_VERSION T (PortLoc (fresh_addr w)) context devaddr ;;
     if decide (rc ≠ (DC_STATUS_SUCCESS : Z)) then
       free (fresh_addr w) ;;;
       ret rc
     else
       set_type (fresh_addr w) DC_TRANSPORT_BLUETOOTH ;;;
       store_loc out (fresh_addr w) ;;;
       ret (DC_STATUS_SUCCESS : Z))
      (wrapped (init NULL) w).
Proof.
  intros Hout Hm. destruct (fresh_addr_spec w) as [Hsd _].
  unfold dc_serial_qt_open. rewrite decide_False by done.
  rewrite (bind_Ret _ _ _ _ _ (malloc_run _ _ Hm)).
  rewrite decide_False by done.
  rewrite (bind_Ret _ _ _ _ _ (store_top _ _ _ _ _ _ _)).
  reflexivity.
Qed.

(** X14: when the call of [qt_serial_open] inside [dc_serial_qt_open]
    returns a value other than [DC_STATUS_SUCCESS] (a classified connection
    error, the raw -1 of an unclassified one, or out of memory),
    [dc_serial_qt_open] frees the structure it allocated, without having
    set its port or type, and returns that same value. *)
Theorem dc_serial_qt_open_passes_failure (QT_VERSION : Z) (T : transport)
    (init : ptr -> dc_serial_t) (out : loc) (context : ptr) (devaddr : string)
    (w : world) (rc : Z) (w2 : world) :
  let sd := fresh_addr w in
  out <> NullLoc ->
  malloc_ok w = true ->
  qt_serial_open QT_VERSION T (PortLoc sd) context devaddr (wrapped (init NULL) w)
    = Ret rc w2 ->
  rc <> (DC_STATUS_SUCCESS : Z) ->
  dc_serial_qt_open QT_VERSION T init out context devaddr w =
    Ret rc (set_heap (<[sd := mk_cell (DcSerial (init NULL)) false]> (heap w2)) w2).
Proof.
  intros sd Hout Hm Hopen Hrc.
  destruct (fresh_addr_spec w) as [Hsd _].
  assert (Hl : heap w2 !! sd = Some (mk_cell (DcSerial (init NULL)) true)).
  { eapply qt_serial_open_frame; [exact Hopen | exact Hrc |].
    simpl. apply lookup_insert_eq. }
  rewrite dc_serial_qt_open_enter by done. fold sd.
  rewrite (bind_Ret _ _ _ _ _ Hopen).
  rewrite decide_True by done.
  unfold free. rewrite decide_False by done.
  by rewrite (bind_Ret _ _ _ _ _ (release_live _ _ _ Hl)).
Qed.

Lemma dc_serial_qt_open_passes_failure_witness :
  let w := one_handle idle_socket in
  let r := dc_serial_qt_open 0x050900 (refusing NetworkError) cleared_with_ops
             (CellLoc 3%N) NULL "00:11:22:33:44:55" w in
  returned r = Some (DC_STATUS_IO : Z) /\
  heap (final r) !! 4%N = Some (mk_cell (DcSerial (cleared_with_ops NULL)) false).
Proof.
  intros w r.
  set (w2 := final (qt_serial_open 0x050900 (refusing NetworkError) (PortLoc 4%N) NULL
                      "00:11:22:33:44:55" (wrapped (cleared_with_ops NULL) w))).
  assert (Hopen : qt_serial_open 0x050900 (refusing NetworkError) (PortLoc 4%N) NULL
                    "00:11:22:33:44:55" (wrapped (cleared_with_ops NULL) w)
                  = Ret (-6) w2) by (vm_compute; reflexivity).
  assert (Hrun := dc_serial_qt_open_passes_failure 0x050900 (refusing NetworkError)
                    cleared_with_ops (CellLoc 3%N) NULL "00:11:22:33:44:55" w (-6) w2).
  cbv zeta in Hrun.
  assert (Hrun' := Hrun ltac:(discriminate) eq_refl Hopen ltac:(discriminate)).
  subst r. rewrite Hrun'.
  split; [reflexivity |]. apply lookup_insert_eq.
Defined.

(** X15: given a pointer variable as out parameter and both allocations
    succeeding, when the socket ends connected [dc_serial_qt_open] returns
    [DC_STATUS_SUCCESS] and stores the new structure in the variable; its
    port is the handle that [qt_serial_open] created, its type is
    [DC_TRANSPORT_BLUETOOTH], its other fields are as [dc_serial_init] left
    them, and no memory fault occurred. *)
Theorem dc_serial_qt_open_connected (QT_VERSION : Z) (T : transport)
    (init : ptr -> dc_serial_t) (a p0 context : ptr) (devaddr : string) (w : world) :
  let sd := fresh_addr w in
  let w2 := wrapped (init NULL) w in
  let sp := fresh_addr w2 in
  let s := second_addr w2 in
  let q := T (connect_log T s devaddr (calls w)) in
  heap w !! a = Some (mk_cell (Pointer p0) true) ->
  malloc_ok w = true ->
  malloc_ok w2 = true ->
  connect_failed q = false ->
  exists w',
    dc_serial_qt_open QT_VERSION T init (CellLoc a) context devaddr w
      = Ret (DC_STATUS_SUCCESS : Z) w' /\
    read_loc (CellLoc a) w' = Some sd /\
    heap w' !! sd =
      Some (mk_cell (DcSerial (mk_dc_serial_t sp DC_TRANSPORT_BLUETOOTH
                                 (data (init NULL)) (ops (init NULL)))) true) /\
    heap w' !! sp = Some (mk_cell (Serial (mk_serial_t context s (-1))) true) /\
    heap w' !! s = Some (mk_cell (Socket q) true) /\
    faults w' = faults w.
Proof.
  intros sd w2 sp s q Ha Hm Hm2 Hf.
  destruct (fresh_addr_spec w) as [Hsdn Hsd].
  change (sd <> NULL) in Hsdn. change (heap w !! sd = None) in Hsd.
  destruct (fresh_addr_spec w2) as [_ Hsp].
  change (heap w2 !! sp = None) in Hsp.
  destruct (second_addr_spec w2) as (_ & Hne & Hs).
  change (s <> sp) in Hne. change (heap w2 !! s = None) in Hs.
  assert (Hw2sd : heap w2 !! sd = Some (mk_cell (DcSerial (init NULL)) true))
    by (unfold w2, wrapped; simpl; apply lookup_insert_eq).
  assert (Hsp_sd : sp <> sd) by (intros E; rewrite E in Hsp; congruence).
  assert (Hs_sd : s <> sd) by (intros E; rewrite E in Hs; congruence).
  assert (Ha_sd : a <> sd) by (intros E; rewrite E in Ha; congruence).
  assert (Hw2a : heap w2 !! a = Some (mk_cell (Pointer p0) true))
    by (unfold w2, wrapped; simpl; by rewrite lookup_insert_ne).
  assert (Ha_sp : a <> sp) by (intros E; rewrite <- E in Hsp; congruence).
  assert (Ha_s : a <> s) by (intros E; rewrite <- E in Hs; congruence).
  set (L := connect_log T s devaddr (calls w)) in *.
  set (w3 := open_world true (heap w2) (faults w) (tail (allocs w2)) sp s context q L).
  assert (Hw3sd : heap w3 !! sd = Some (mk_cell (DcSerial (init NULL)) true)).
  { unfold w3, open_world. cbn [heap].
    rewrite (lookup_insert_ne _ s sd) by done.
    rewrite (lookup_insert_ne _ sp sd) by done. exact Hw2sd. }
  set (d4 := mk_dc_serial_t sp (type (init NULL)) (data (init NULL)) (ops (init NULL))).
  set (w4 := set_heap (<[sd := mk_cell (DcSerial d4) true]> (heap w3)) w3).
  assert (Hopen : qt_serial_open QT_VERSION T (PortLoc sd) context devaddr w2
                  = Ret (DC_STATUS_SUCCESS : Z) w4).
  { rewrite qt_serial_open_run by done. cbv zeta.
    change (calls w2) with (calls w).
    change (second_addr w2) with s. change (fresh_addr w2) with sp.
    change (connect_log T s devaddr (calls w)) with L.
    change (T L) with q. rewrite Hf.
    change (faults w2) with (faults w). fold w3.
    unfold store_loc. rewrite bind_assoc.
    rewrite (bind_Ret _ _ _ _ _ (load_dc_serial_live _ _ _ Hw3sd)).
    by rewrite (bind_Ret _ _ _ _ _ (store_live _ _ _ _ Hw3sd)). }
  assert (Hw4sd : heap w4 !! sd = Some (mk_cell (DcSerial d4) true))
    by (unfold w4, set_heap; cbn [heap]; apply lookup_insert_eq).
  set (d5 := mk_dc_serial_t sp DC_TRANSPORT_BLUETOOTH (data (init NULL)) (ops (init NULL))).
  set (w5 := set_heap (<[sd := mk_cell (DcSerial d5) true]> (heap w4)) w4).
  assert (Hw5a : heap w5 !! a = Some (mk_cell (Pointer p0) true)).
  { unfold w5, w4, w3, set_heap, open_world. cbn [heap].
    rewrite !(lookup_insert_ne _ sd a) by done.
    rewrite (lookup_insert_ne _ s a) by done.
    rewrite (lookup_insert_ne _ sp a) by done. exact Hw2a. }
  set (w6 := set_heap (<[a := mk_cell (Pointer sd) true]> (heap w5)) w5).
  exists w6. split.
  { rewrite dc_serial_qt_open_enter by done. fold sd w2.
    rewrite (bind_Ret _ _ _ _ _ Hopen).
    rewrite decide_False by (intros H; by apply H).
    unfold set_type. rewrite bind_assoc.
    rewrite (bind_Ret _ _ _ _ _ (load_dc_serial_live _ _ _ Hw4sd)).
    rewrite (bind_Ret _ _ _ _ _ (store_live _ _ _ _ Hw4sd)).
    unfold store_loc. rewrite bind_assoc.
    rewrite (bind_Ret _ _ _ _ _ (load_live _ _ _ Hw5a)). cbv beta iota.
    by rewrite (bind_Ret _ _ _ _ _ (store_live _ _ _ _ Hw5a)). }
  unfold w6, w5, w4, w3, set_heap, open_world, read_loc. cbn [heap faults].
  rewrite lookup_insert_eq.
  rewrite !(lookup_insert_ne _ a) by done.
  rewrite lookup_insert_eq.
  rewrite !(lookup_insert_ne _ sd sp) by done.
  rewrite !(lookup_insert_ne _ sd s) by done.
  rewrite lookup_insert_eq.
  rewrite (lookup_insert_ne _ s sp) by done.
  rewrite lookup_insert_eq.
  done.
Qed.

Lemma dc_serial_qt_open_connected_witness :
  let w := one_handle idle_socket in
  exists w',
    dc_serial_qt_open 0x050900 accepts_channel_5 cleared_with_ops (CellLoc 3%N) NULL
      "00:11:22:33:44:55" w = Ret (DC_STATUS_SUCCESS : Z) w' /\
    read_loc (CellLoc 3%N) w' = Some 4%N /\
    heap w' !! 4%N =
      Some (mk_cell (DcSerial (mk_dc_serial_t 5%N DC_TRANSPORT_BLUETOOTH NULL true)) true) /\
    heap w' !! 5%N = Some (mk_cell (Serial (mk_serial_t NULL 6%N (-1))) true) /\
    heap w' !! 6%N
      = Some (mk_cell (Socket (mk_socket ConnectedState NoSocketError 9)) true) /\
    faults w' = [].
Proof.
  intros w.
  apply (dc_serial_qt_open_connected 0x050900 accepts_channel_5 cleared_with_ops
           3%N NULL NULL "00:11:22:33:44:55" w); reflexivity.
Defined.

(** X16: when [malloc] fails in [dc_serial_qt_open], for the structure or
    for the handle inside [qt_serial_open], the call returns
    [DC_STATUS_NOMEMORY] without any call on a socket or timer and without
    a memory fault; every object that existed before is as it was, and no
    allocated object is left behind that did not exist before. *)
Theorem dc_serial_qt_open_out_of_memory (QT_VERSION : Z) (T : transport)
    (init : ptr -> dc_serial_t) (out : loc) (context : ptr) (devaddr : string)
    (w : world) :
  out <> NullLoc ->
  malloc_ok w = false \/
  (malloc_ok w = true /\ malloc_ok (wrapped (init NULL) w) = false) ->
  exists w',
    dc_serial_qt_open QT_VERSION T init out context devaddr w
      = Ret (DC_STATUS_NOMEMORY : Z) w' /\
    calls w' = calls w /\
    faults w' = faults w /\
    (forall b c, heap w !! b = Some c -> heap w' !! b = Some c) /\
    (forall b c, heap w' !! b = Some c -> live c = true -> heap w !! b = Some c).
Proof.
  intros Hout [Hm | [Hm Hm2]].
  - eexists. split.
    { unfold dc_serial_qt_open. rewrite decide_False by done.
      rewrite (bind_Ret _ _ _ _ _ (malloc_fails _ _ Hm)).
      by rewrite decide_True. }
    simpl. repeat split; done.
  - destruct (fresh_addr_spec w) as [Hsdn Hsd].
    set (w3 := mk_world (heap (wrapped (init NULL) w)) (faults (wrapped (init NULL) w))
                 (calls (wrapped (init NULL) w)) (tail (allocs (wrapped (init NULL) w)))).
    assert (Hl : heap w3 !! fresh_addr w = Some (mk_cell (DcSerial (init NULL)) true))
      by (unfold w3, wrapped; cbn [heap]; apply lookup_insert_eq).
    eexists. split.
    { rewrite dc_serial_qt_open_enter by done.
      rewrite (bind_Ret _ _ _ _ _
                 (qt_serial_open_no_memory QT_VERSION T (PortLoc (fresh_addr w)) context
                    devaddr (wrapped (init NULL) w) ltac:(discriminate) Hm2)).
      rewrite decide_True by discriminate.
      unfold free. rewrite decide_False by done.
      fold w3. rewrite (bind_Ret _ _ _ _ _ (release_live _ _ _ Hl)).
      reflexivity. }
    simpl. rewrite insert_insert_eq. repeat split; try done.
    + intros b c Hb.
      assert (fresh_addr w <> b) by (intros E; rewrite E in Hsd; congruence).
      by rewrite lookup_insert_ne.
    + intros b c Hb Hlive.
      destruct (decide (fresh_addr w = b)) as [<- | Hne].
      * rewrite lookup_insert_eq in Hb. injection Hb as <-. discriminate Hlive.
      * by rewrite lookup_insert_ne in Hb.
Qed.

(** The second allocation fails. *)
Lemma dc_serial_qt_open_out_of_memory_witness :
  let w := mk_world (heap (one_handle idle_socket)) [] [] [true; false] in
  exists w',
    dc_serial_qt_open 0x050900 accepts_channel_5 cleared_with_ops (CellLoc 3%N) NULL
      "00:11:22:33:44:55" w = Ret (DC_STATUS_NOMEMORY : Z) w' /\
    calls w' = [] /\
    faults w' = [] /\
    (forall b c, heap w !! b = Some c -> heap w' !! b = Some c) /\
    (forall b c, heap w' !! b = Some c -> live c = true -> heap w !! b = Some c).
Proof.
  intros w.
  apply (dc_serial_qt_open_out_of_memory 0x050900 accepts_channel_5 cleared_with_ops
           (CellLoc 3%N) NULL "00:11:22:33:44:55" w).
  - discriminate.
  - right. split; reflexivity.
Defined.

(** ** close: several handles, and a handle that was closed *)

(** X17: two live handles with different sockets can be closed in either
    order: both calls succeed, no memory fault is recorded, and the heap is
    the same in the end, with both handles and both sockets released. *)
Theorem qt_serial_close_two_handles (device1 device2 : ptr) (d1 d2 : serial_t)
    (q1 q2 : QBluetoothSocket) (w : world) :
  device1 <> NULL ->
  device2 <> NULL ->
  device1 <> device2 ->
  heap w !! device1 = Some (mk_cell (Serial d1) true) ->
  heap w !! device2 = Some (mk_cell (Serial d2) true) ->
  socket d1 <> NULL ->
  socket d2 <> NULL ->
  socket d1 <> socket d2 ->
  heap w !! socket d1 = Some (mk_cell (Socket q1) true) ->
  heap w !! socket d2 = Some (mk_cell (Socket q2) true) ->
  exists w12 w21,
    (qt_serial_close device1 ;;; qt_serial_close device2) w
      = Ret (DC_STATUS_SUCCESS : Z) w12 /\
    (qt_serial_close device2 ;;; qt_serial_close device1) w
      = Ret (DC_STATUS_SUCCESS : Z) w21 /\
    heap w12 = heap w21 /\
    faults w12 = faults w /\
    faults w21 = faults w /\
    heap w12 !! device1 = Some (mk_cell (Serial d1) false) /\
    heap w12 !! device2 = Some (mk_cell (Serial d2) false) /\
    heap w12 !! socket d1 = Some (mk_cell (Socket q1) false) /\
    heap w12 !! socket d2 = Some (mk_cell (Socket q2) false).
Proof.
  intros Hn1 Hn2 Hne Hd1 Hd2 Hsn1 Hsn2 Hsne Hs1 Hs2.
  assert (H12 : device1 <> socket d2) by (intros E; rewrite E in Hd1; congruence).
  assert (H21 : device2 <> socket d1) by (intros E; rewrite E in Hd2; congruence).
  assert (H11 : device1 <> socket d1) by (intros E; rewrite E in Hd1; congruence).
  assert (H22 : device2 <> socket d2) by (intros E; rewrite E in Hd2; congruence).
  exists (closed device2 d2 q2 (closed device1 d1 q1 w)),
         (closed device1 d1 q1 (closed device2 d2 q2 w)).
  split; [| split].
  - rewrite (bind_Ret _ _ _ _ _ (qt_serial_close_live _ _ _ _ Hn1 Hd1 Hsn1 Hs1)).
    apply qt_serial_close_live; try done; simpl; by rewrite !lookup_insert_ne.
  - rewrite (bind_Ret _ _ _ _ _ (qt_serial_close_live _ _ _ _ Hn2 Hd2 Hsn2 Hs2)).
    apply qt_serial_close_live; try done; simpl; by rewrite !lookup_insert_ne.
  - split.
    { simpl. apply map_eq. intros i. rewrite !lookup_insert.
      repeat case_decide; simplify_eq; done. }
    simpl. repeat split.
    + rewrite !lookup_insert. repeat case_decide; simplify_eq; done.
    + rewrite !lookup_insert. repeat case_decide; simplify_eq; done.
    + rewrite !lookup_insert. repeat case_decide; simplify_eq; done.
    + rewrite !lookup_insert. repeat case_decide; simplify_eq; done.
Qed.

Lemma qt_serial_close_two_handles_witness :
  let w := mk_world
             (<[1%N := mk_cell (Serial (mk_serial_t NULL 2%N (-1))) true]>
                (<[2%N := mk_cell (Socket connected_socket) true]>
                   (<[3%N := mk_cell (Serial (mk_serial_t NULL 4%N (-1))) true]>
                      (<[4%N := mk_cell (Socket connected_socket) true]> ∅))))
             [] [] [] in
  exists w12 w21,
    (qt_serial_close 1%N ;;; qt_serial_close 3%N) w = Ret (DC_STATUS_SUCCESS : Z) w12 /\
    (qt_serial_close 3%N ;;; qt_serial_close 1%N) w = Ret (DC_STATUS_SUCCESS : Z) w21 /\
    heap w12 = heap w21 /\
    faults w12 = [] /\
    faults w21 = [] /\
    heap w12 !! 1%N = Some (mk_cell (Serial (mk_serial_t NULL 2%N (-1))) false) /\
    heap w12 !! 3%N = Some (mk_cell (Serial (mk_serial_t NULL 4%N (-1))) false) /\
    heap w12 !! 2%N = Some (mk_cell (Socket connected_socket) false) /\
    heap w12 !! 4%N = Some (mk_cell (Socket connected_socket) false).
Proof.
  intros w.
  apply (qt_serial_close_two_handles 1%N 3%N (mk_serial_t NULL 2%N (-1))
           (mk_serial_t NULL 4%N (-1)) connected_socket connected_socket w);
    first [discriminate | reflexivity].
Defined.

(** X18: the guard of the operations does not recognise a handle that was
    closed.  After [qt_serial_close] of a live handle, [qt_serial_flush] on
    the same pointer still reports success, and so does a read or write of
    no bytes with 0; each of them reads the freed handle to do so. *)
Theorem closed_handle_passes_guard (device : ptr) (d : serial_t) (q : QBluetoothSocket)
    (queue : Z) (data rx : buffer) (script : list transfer) (w : world) :
  device <> NULL ->
  heap w !! device = Some (mk_cell (Serial d) true) ->
  socket d <> NULL ->
  heap w !! socket d = Some (mk_cell (Socket q) true) ->
  let w1 := closed device d q w in
  let w2 := add_fault (UseAfterFree device) w1 in
  qt_serial_close device w = Ret (DC_STATUS_SUCCESS : Z) w1 /\
  qt_serial_flush device queue w1 = Ret (DC_STATUS_SUCCESS : Z) w2 /\
  qt_serial_read device data 0 rx script w1 = Ret (0, data) w2 /\
  qt_serial_write device data 0 script w1 = Ret 0 w2.
Proof.
  intros Hnn Hd Hsn Hs w1 w2.
  assert (Hl : heap w1 !! device = Some (mk_cell (Serial d) false))
    by (unfold w1, closed; cbn [heap]; apply lookup_insert_eq).
  assert (Hload : load_serial device w1 = Ret d w2).
  { unfold load_serial, bind. by rewrite (load_dead _ _ _ Hl). }
  split; [by apply qt_serial_close_live |].
  unfold qt_serial_flush, qt_serial_read, qt_serial_write.
  rewrite !decide_False by done.
  rewrite !(bind_Ret _ _ _ _ _ Hload).
  rewrite !decide_False by done.
  repeat split; by destruct script.
Qed.

Lemma closed_handle_passes_guard_witness :
  let w := one_handle connected_socket in
  let w1 := closed 1%N (mk_serial_t NULL 2%N (-1)) connected_socket w in
  let w2 := add_fault (UseAfterFree 1%N) w1 in
  qt_serial_close 1%N w = Ret (DC_STATUS_SUCCESS : Z) w1 /\
  qt_serial_flush 1%N 0 w1 = Ret (DC_STATUS_SUCCESS : Z) w2 /\
  qt_serial_read 1%N blank 0 counting [] w1 = Ret (0, blank) w2 /\
  qt_serial_write 1%N blank 0 [] w1 = Ret 0 w2.
Proof.
  intros w.
  apply (closed_handle_passes_guard 1%N (mk_serial_t NULL 2%N (-1)) connected_socket 0
           blank counting [] w);
    first [discriminate | reflexivity].
Defined.

(** X19 is [qt_serial_close_only_success]: here on a handle that was
    closed before, where the call goes wrong in every other respect. *)
Lemma qt_serial_close_only_success_witness :
  let w1 := final (qt_serial_close 1%N (one_handle connected_socket)) in
  let w2 := final (qt_serial_close 1%N w1) in
  qt_serial_close 1%N w1 = Ret 0 w2 /\ 0 = (DC_STATUS_SUCCESS : Z).
Proof.
  intros w1 w2.
  assert (Hrun : qt_serial_close 1%N w1 = Ret 0 w2) by (vm_compute; reflexivity).
  split; [exact Hrun |].
  exact (qt_serial_close_only_success 1%N w1 0 w2 Hrun).
Defined.
